(** * google-contacts-backup: a shallow embedding of the synchronisation engine

    The development follows two Go packages of the repository:
    - [internal/contacts]: the People API client (paginated listing, batched
      deletion and creation, the record sanitiser);
    - [internal/models]: the backup file (structured JSON store, CSV export).

    Go values are modelled as follows: [string] is [String.string] (a byte
    string), [int] is [Z] where a value can be negative and [nat] where it is
    a length, a slice of pointers to structs is a [list] of records (no entry
    is the nil pointer), a [map[string]string] is a [gmap string string], a
    pointer that may be nil is an [option]. *)

From Stdlib Require Import ZArith Lia String Ascii List DecimalString.
From stdpp Require Import gmap strings list.

Set Warnings "-register-all,-clear-no-such-hyp".
Local Open Scope string_scope.
Local Open Scope list_scope.

(** ** The record model (google.golang.org/api/people/v1)

    The People API types are declared outside the repository; the records
    below carry the fields the repository reads or writes. *)

(** [people.FieldMetadata]: the service-assigned stamp of a field entry. *)
Record FieldMetadata := mkFieldMetadata {
  Primary : bool;
  Verified : bool;
  SourceType : string;
  SourceId : string
}.

(** Every repeatable field struct of the API has a [Metadata *FieldMetadata]
    field next to its own data; [Entry A] is such a struct with data [A]. *)
Record Entry (A : Type) := mkEntry {
  Metadata : option FieldMetadata;
  value : A
}.
Arguments mkEntry {A} _ _.
Arguments Metadata {A} _.
Arguments value {A} _.

(** [people.Date] *)
Record Date := mkDate { Year : Z; Month : Z; Day : Z }.

Module Name.
Record t := mk {
    HonorificPrefix : string;
    GivenName : string;
    MiddleName : string;
    FamilyName : string;
    HonorificSuffix : string;
    PhoneticGivenName : string;
    PhoneticMiddleName : string;
    PhoneticFamilyName : string
  }.
End Name.

Module Nickname.
Record t := mk { Value : string }.
End Nickname.

Module FileAs.
Record t := mk { Value : string }.
End FileAs.

Module Birthday.
Record t := mk { Date : option Date; Text : string }.
End Birthday.

Module Organization.
Record t := mk { Name : string; Title : string; Department : string }.
End Organization.

Module EmailAddress.
Record t := mk { Type_ : string; Value : string }.
End EmailAddress.

Module PhoneNumber.
Record t := mk { Type_ : string; Value : string }.
End PhoneNumber.

Module Address.
Record t := mk {
    Type_ : string;
    StreetAddress : string;
    ExtendedAddress : string;
    City : string;
    Region : string;
    PostalCode : string;
    Country : string;
    PoBox : string
  }.
End Address.

Module Event.
Record t := mk { Type_ : string; Date : option Date }.
End Event.

Module Relation.
Record t := mk { Type_ : string; Person : string }.
End Relation.

Module Url.
Record t := mk { Type_ : string; Value : string }.
End Url.

Module UserDefined.
Record t := mk { Key : string; Value : string }.
End UserDefined.

Module Biography.
Record t := mk { Value : string }.
End Biography.

(** [people.ContactGroupMembership] *)
Record ContactGroupMembershipT := mkContactGroupMembership {
  ContactGroupId : string;
  ContactGroupResourceName : string
}.

(** [people.Membership] without its [Metadata] field (held by [Entry]). *)
Record MembershipData := mkMembershipData {
  ContactGroupMembership : option ContactGroupMembershipT;
  DomainMembership : option bool
}.

Abbreviation Membership := (Entry MembershipData).

(** [people.Person].  The groups whose content the repository never looks at
    carry a [string] payload. *)
Record Person := mkPerson {
  ResourceName : string;
  Etag : string;
  PersonMetadata : option string;
  Names : list (Entry Name.t);
  Nicknames : list (Entry Nickname.t);
  EmailAddresses : list (Entry EmailAddress.t);
  PhoneNumbers : list (Entry PhoneNumber.t);
  Addresses : list (Entry Address.t);
  Organizations : list (Entry Organization.t);
  Birthdays : list (Entry Birthday.t);
  Biographies : list (Entry Biography.t);
  Urls : list (Entry Url.t);
  UserDefined : list (Entry UserDefined.t);
  Events : list (Entry Event.t);
  Relations : list (Entry Relation.t);
  Occupations : list (Entry string);
  Genders : list (Entry string);
  ImClients : list (Entry string);
  Interests : list (Entry string);
  SipAddresses : list (Entry string);
  CalendarUrls : list (Entry string);
  ExternalIds : list (Entry string);
  Locales : list (Entry string);
  Locations : list (Entry string);
  MiscKeywords : list (Entry string);
  ClientData : list (Entry string);
  Memberships : list Membership;
  FileAses : list (Entry FileAs.t);
  Photos : list (Entry string);
  CoverPhotos : list (Entry string)
}.

(** [people.ContactGroup] *)
Record ContactGroup := mkContactGroup {
  GroupResourceName : string;
  GroupName : string;
  GroupType : string
}.

(** The zero value [&people.Person{}]. *)
Definition emptyPerson : Person :=
  mkPerson "" "" None [] [] [] [] [] [] [] [] [] [] [] [] [] [] [] [] [] [] []
           [] [] [] [] [] [] [] [].

(** ** The record sanitiser (internal/contacts) *)

(** [x.Metadata = nil] on one entry. *)
Definition clearMetadata {A} (e : Entry A) : Entry A :=
  mkEntry None (value e).

(** [clearFieldMetadata]: one loop per group, twenty-three groups.  The Go
    function writes through the entry pointers, which the new person shares
    with the contact it was built from; the value returned here is the
    person as seen after the call. *)
Definition clearFieldMetadata (person : Person) : Person :=
  {| ResourceName := ResourceName person;
     Etag := Etag person;
     PersonMetadata := PersonMetadata person;
     Names := map clearMetadata (Names person);
     Nicknames := map clearMetadata (Nicknames person);
     EmailAddresses := map clearMetadata (EmailAddresses person);
     PhoneNumbers := map clearMetadata (PhoneNumbers person);
     Addresses := map clearMetadata (Addresses person);
     Organizations := map clearMetadata (Organizations person);
     Birthdays := map clearMetadata (Birthdays person);
     Biographies := map clearMetadata (Biographies person);
     Urls := map clearMetadata (Urls person);
     UserDefined := map clearMetadata (UserDefined person);
     Events := map clearMetadata (Events person);
     Relations := map clearMetadata (Relations person);
     Occupations := map clearMetadata (Occupations person);
     Genders := map clearMetadata (Genders person);
     ImClients := map clearMetadata (ImClients person);
     Interests := map clearMetadata (Interests person);
     SipAddresses := map clearMetadata (SipAddresses person);
     CalendarUrls := map clearMetadata (CalendarUrls person);
     ExternalIds := map clearMetadata (ExternalIds person);
     Locales := map clearMetadata (Locales person);
     Locations := map clearMetadata (Locations person);
     MiscKeywords := map clearMetadata (MiscKeywords person);
     ClientData := map clearMetadata (ClientData person);
     Memberships := Memberships person;
     FileAses := FileAses person;
     Photos := Photos person;
     CoverPhotos := CoverPhotos person |}.

(** [strings.HasPrefix(s, p)] *)
Definition HasPrefix (s p : string) : bool := String.prefix p s.

(** The condition of the first [if] of the membership loop: the name is
    under [contactGroups/] and starts with none of the seven listed names. *)
Definition isUserGroupName (oldResourceName : string) : bool :=
  HasPrefix oldResourceName "contactGroups/" &&
  negb (HasPrefix oldResourceName "contactGroups/myContacts") &&
  negb (HasPrefix oldResourceName "contactGroups/starred") &&
  negb (HasPrefix oldResourceName "contactGroups/chatBuddies") &&
  negb (HasPrefix oldResourceName "contactGroups/all") &&
  negb (HasPrefix oldResourceName "contactGroups/friends") &&
  negb (HasPrefix oldResourceName "contactGroups/family") &&
  negb (HasPrefix oldResourceName "contactGroups/coworkers").

(** The membership built in the user-group branch: only the group's
    resource name is set. *)
Definition remappedMembership (newResourceName : string) : Membership :=
  mkEntry None
    (mkMembershipData (Some (mkContactGroupMembership "" newResourceName)) None).

(** One iteration of the membership loop: [newMemberships] after the
    iteration for [membership]. *)
Definition cleanMembershipStep (groupMap : gmap string string)
    (newMemberships : list Membership) (membership : Membership)
    : list Membership :=
  match ContactGroupMembership (value membership) with
  | Some cgm =>
      let oldResourceName := ContactGroupResourceName cgm in
      if isUserGroupName oldResourceName then
        match groupMap !! oldResourceName with
        | Some newResourceName =>
            newMemberships ++ [remappedMembership newResourceName]
        | None => newMemberships
        end
      else if String.eqb oldResourceName "contactGroups/myContacts" then
        newMemberships ++ [membership]
      else newMemberships
  | None => newMemberships
  end.

(** [cleanContactForCreation] *)
Definition cleanContactForCreation (contact : Person)
    (groupMap : gmap string string) : Person :=
  let newPerson :=
    {| ResourceName := "";
       Etag := "";
       PersonMetadata := None;
       Names := Names contact;
       Nicknames := Nicknames contact;
       EmailAddresses := EmailAddresses contact;
       PhoneNumbers := PhoneNumbers contact;
       Addresses := Addresses contact;
       Organizations := Organizations contact;
       Birthdays := Birthdays contact;
       Biographies := Biographies contact;
       Urls := Urls contact;
       UserDefined := UserDefined contact;
       Events := Events contact;
       Relations := Relations contact;
       Occupations := Occupations contact;
       Genders := Genders contact;
       ImClients := ImClients contact;
       Interests := Interests contact;
       SipAddresses := SipAddresses contact;
       CalendarUrls := CalendarUrls contact;
       ExternalIds := ExternalIds contact;
       Locales := Locales contact;
       Locations := Locations contact;
       MiscKeywords := MiscKeywords contact;
       ClientData := ClientData contact;
       Memberships :=
         match Memberships contact with
         | [] => []
         | _ :: _ =>
             fold_left (cleanMembershipStep groupMap) (Memberships contact) []
         end;
       FileAses := [];
       Photos := [];
       CoverPhotos := [] |} in
  clearFieldMetadata newPerson.

(** ** Go library functions used by the CSV export *)

(** [strings.ToLower] and [strings.ToUpper] on one byte.  Only the ASCII
    letters are mapped: type labels of the API are ASCII. *)
Definition lowerByte (c : ascii) : ascii :=
  let n := nat_of_ascii c in
  if (65 <=? n)%nat && (n <=? 90)%nat then ascii_of_nat (n + 32) else c.

Definition upperByte (c : ascii) : ascii :=
  let n := nat_of_ascii c in
  if (97 <=? n)%nat && (n <=? 122)%nat then ascii_of_nat (n - 32) else c.

Fixpoint mapBytes (f : ascii -> ascii) (s : string) : string :=
  match s with
  | EmptyString => EmptyString
  | String c s' => String (f c) (mapBytes f s')
  end.

Definition ToLower (s : string) : string := mapBytes lowerByte s.
Definition ToUpper (s : string) : string := mapBytes upperByte s.

(** [strings.TrimPrefix(s, p)] *)
Definition TrimPrefix (s p : string) : string :=
  if HasPrefix s p
  then substring (String.length p) (String.length s - String.length p) s
  else s.

(** [strings.Join(elems, sep)] *)
Definition Join (elems : list string) (sep : string) : string :=
  String.concat sep elems.

(** [fmt.Sprintf("%d", i)] *)
Definition formatInt (i : Z) : string := NilZero.string_of_int (Z.to_int i).

Fixpoint zeros (n : nat) : string :=
  match n with
  | O => EmptyString
  | S n' => String "0" (zeros n')
  end.

(** [fmt.Sprintf("%0<width>d", i)]: zero padding goes after the sign. *)
Definition formatIntPadded (width : nat) (i : Z) : string :=
  let digits := NilZero.string_of_uint (N.to_uint (Z.abs_N i)) in
  if (i <? 0)%Z
  then "-" ++ zeros (width - 1 - String.length digits) ++ digits
  else zeros (width - String.length digits) ++ digits.

(** The two date layouts of [contactToCSVRow]:
    ["%04d-%02d-%02d"] when the year is positive, ["--%02d-%02d"] otherwise. *)
Definition formatDate (d : option Date) : string :=
  match d with
  | Some d =>
      if (Year d >? 0)%Z
      then formatIntPadded 4 (Year d) ++ "-" ++ formatIntPadded 2 (Month d)
           ++ "-" ++ formatIntPadded 2 (Day d)
      else "--" ++ formatIntPadded 2 (Month d) ++ "-" ++ formatIntPadded 2 (Day d)
  | None => ""
  end.

(** A counted loop [for i := lo; i < lo + n; i++] that appends to a slice. *)
Definition forAppend (lo : nat) (n : Z) (body : nat -> list string)
    (acc : list string) : list string :=
  fold_left (fun acc i => acc ++ body i) (seq lo (Z.to_nat n)) acc.

(** ** The CSV export (internal/models) *)

Definition colNamePrefix := "Name Prefix".
Definition colFirstName := "First Name".
Definition colMiddleName := "Middle Name".
Definition colLastName := "Last Name".
Definition colNameSuffix := "Name Suffix".
Definition colPhoneticFirstName := "Phonetic First Name".
Definition colPhoneticMiddleName := "Phonetic Middle Name".
Definition colPhoneticLastName := "Phonetic Last Name".
Definition colNickname := "Nickname".
Definition colFileAs := "File As".
Definition colBirthday := "Birthday".
Definition colNotes := "Notes".
Definition colLabels := "Labels".
Definition colOrgName := "Organization Name".
Definition colOrgTitle := "Organization Title".
Definition colOrgDepartment := "Organization Department".

Definition labelSeparator := " ::: ".

(** [csvFieldCounts]; the fields are Go [int]s. *)
Record csvFieldCounts := mkCounts {
  Emails : Z;
  Phones : Z;
  AddressesN : Z;
  EventsN : Z;
  RelationsN : Z;
  Websites : Z;
  CustomFields : Z
}.

Definition len {A} (l : list A) : Z := Z.of_nat (length l).

(** One iteration of the loop of [countMaxFields]. *)
Definition countMaxStep (counts : csvFieldCounts) (contact : Person)
    : csvFieldCounts :=
  {| Emails := if (len (EmailAddresses contact) >? Emails counts)%Z
               then len (EmailAddresses contact) else Emails counts;
     Phones := if (len (PhoneNumbers contact) >? Phones counts)%Z
               then len (PhoneNumbers contact) else Phones counts;
     AddressesN := if (len (Addresses contact) >? AddressesN counts)%Z
                   then len (Addresses contact) else AddressesN counts;
     EventsN := if (len (Events contact) >? EventsN counts)%Z
                then len (Events contact) else EventsN counts;
     RelationsN := if (len (Relations contact) >? RelationsN counts)%Z
                   then len (Relations contact) else RelationsN counts;
     Websites := if (len (Urls contact) >? Websites counts)%Z
                 then len (Urls contact) else Websites counts;
     CustomFields := if (len (UserDefined contact) >? CustomFields counts)%Z
                     then len (UserDefined contact) else CustomFields counts |}.

(** [countMaxFields] *)
Definition countMaxFields (contacts : list Person) : csvFieldCounts :=
  fold_left countMaxStep contacts (mkCounts 0 0 0 0 0 0 0).

Definition numbered (group : string) (i : nat) (suffix : string) : string :=
  group ++ " " ++ formatInt (Z.of_nat i) ++ " - " ++ suffix.

(** [buildCSVHeaders] *)
Definition buildCSVHeaders (counts : csvFieldCounts) : list string :=
  let headers :=
    [ colNamePrefix; colFirstName; colMiddleName; colLastName; colNameSuffix;
      colPhoneticFirstName; colPhoneticMiddleName; colPhoneticLastName;
      colNickname; colFileAs; colBirthday; colOrgName; colOrgTitle;
      colOrgDepartment ] in
  let headers := forAppend 1 (Emails counts) (fun i =>
    [ numbered "Email" i "Label"; numbered "Email" i "Value" ]) headers in
  let headers := forAppend 1 (Phones counts) (fun i =>
    [ numbered "Phone" i "Label"; numbered "Phone" i "Value" ]) headers in
  let headers := forAppend 1 (AddressesN counts) (fun i =>
    [ numbered "Address" i "Label"; numbered "Address" i "Street";
      numbered "Address" i "Extended Address"; numbered "Address" i "City";
      numbered "Address" i "Region"; numbered "Address" i "Postal Code";
      numbered "Address" i "Country"; numbered "Address" i "PO Box" ]) headers in
  let headers := forAppend 1 (EventsN counts) (fun i =>
    [ numbered "Event" i "Label"; numbered "Event" i "Value" ]) headers in
  let headers := forAppend 1 (RelationsN counts) (fun i =>
    [ numbered "Relation" i "Label"; numbered "Relation" i "Value" ]) headers in
  let headers := forAppend 1 (Websites counts) (fun i =>
    [ numbered "Website" i "Label"; numbered "Website" i "Value" ]) headers in
  let headers := forAppend 1 (CustomFields counts) (fun i =>
    [ numbered "Custom Field" i "Label"; numbered "Custom Field" i "Value" ])
    headers in
  headers ++ [ colNotes; colLabels ].

(** [normalizeLabel] *)
Definition normalizeLabel (label : string) : string :=
  if String.eqb label "" then "" else
  let label := TrimPrefix label "TYPE_" in
  let label := ToLower label in
  let label :=
    match label with
    | EmptyString => label
    | String c rest => (ToUpper (String c EmptyString) ++ rest)%string
    end in
  let l := ToLower label in
  if String.eqb l "home" then "Home"
  else if String.eqb l "work" then "Work"
  else if String.eqb l "mobile" then "Mobile"
  else if String.eqb l "main" then "Main"
  else if String.eqb l "other" then "Other"
  else if String.eqb l "homefax" then "Home Fax"
  else if String.eqb l "workfax" then "Work Fax"
  else if String.eqb l "pager" then "Pager"
  else label.

(** [isSystemGroup]: exact match against the eight well-known names. *)
Definition systemGroups : list string :=
  [ "contactGroups/myContacts"; "contactGroups/starred";
    "contactGroups/chatBuddies"; "contactGroups/all";
    "contactGroups/friends"; "contactGroups/family";
    "contactGroups/coworkers"; "contactGroups/blocked" ].

Definition isSystemGroup (resourceName : string) : bool :=
  existsb (fun sg => String.eqb resourceName sg) systemGroups.

(** [extractLabels] *)
Definition extractLabels (contact : Person)
    (groupNameMap : gmap string string) : list string :=
  fold_left (fun labels membership =>
    match ContactGroupMembership (value membership) with
    | Some cgm =>
        let resourceName := ContactGroupResourceName cgm in
        if isSystemGroup resourceName then labels
        else match groupNameMap !! resourceName with
             | Some name => labels ++ [name]
             | None => labels
             end
    | None => labels
    end) (Memberships contact) [].

(** [contactToCSVRow] *)
Definition contactToCSVRow (contact : Person) (counts : csvFieldCounts)
    (groupNameMap : gmap string string) : list string :=
  let row := [] in
  let '(namePrefix, firstName, middleName, lastName, nameSuffix,
        phoneticFirst, phoneticMiddle, phoneticLast) :=
    match Names contact with
    | name :: _ =>
        let n := value name in
        (Name.HonorificPrefix n, Name.GivenName n, Name.MiddleName n,
         Name.FamilyName n, Name.HonorificSuffix n, Name.PhoneticGivenName n,
         Name.PhoneticMiddleName n, Name.PhoneticFamilyName n)
    | [] => ("", "", "", "", "", "", "", "")
    end in
  let nickname :=
    match Nicknames contact with
    | n :: _ => Nickname.Value (value n)
    | [] => ""
    end in
  let fileAs :=
    match FileAses contact with
    | f :: _ => FileAs.Value (value f)
    | [] => ""
    end in
  let birthday :=
    match Birthdays contact with
    | bday :: _ => formatDate (Birthday.Date (value bday))
    | [] => ""
    end in
  let '(orgName, orgTitle, orgDepartment) :=
    match Organizations contact with
    | org :: _ =>
        let o := value org in
        (Organization.Name o, Organization.Title o, Organization.Department o)
    | [] => ("", "", "")
    end in
  let row := row ++
    [ namePrefix; firstName; middleName; lastName; nameSuffix; phoneticFirst;
      phoneticMiddle; phoneticLast; nickname; fileAs; birthday; orgName;
      orgTitle; orgDepartment ] in
  let row := forAppend 0 (Emails counts) (fun i =>
    match EmailAddresses contact !! i with
    | Some email =>
        [ normalizeLabel (EmailAddress.Type_ (value email));
          EmailAddress.Value (value email) ]
    | None => [ ""; "" ]
    end) row in
  let row := forAppend 0 (Phones counts) (fun i =>
    match PhoneNumbers contact !! i with
    | Some phone =>
        [ normalizeLabel (PhoneNumber.Type_ (value phone));
          PhoneNumber.Value (value phone) ]
    | None => [ ""; "" ]
    end) row in
  let row := forAppend 0 (AddressesN counts) (fun i =>
    match Addresses contact !! i with
    | Some addr =>
        let a := value addr in
        [ normalizeLabel (Address.Type_ a); Address.StreetAddress a;
          Address.ExtendedAddress a; Address.City a; Address.Region a;
          Address.PostalCode a; Address.Country a; Address.PoBox a ]
    | None => [ ""; ""; ""; ""; ""; ""; ""; "" ]
    end) row in
  let row := forAppend 0 (EventsN counts) (fun i =>
    match Events contact !! i with
    | Some event =>
        [ normalizeLabel (Event.Type_ (value event));
          formatDate (Event.Date (value event)) ]
    | None => [ ""; "" ]
    end) row in
  let row := forAppend 0 (RelationsN counts) (fun i =>
    match Relations contact !! i with
    | Some rel =>
        [ normalizeLabel (Relation.Type_ (value rel));
          Relation.Person (value rel) ]
    | None => [ ""; "" ]
    end) row in
  let row := forAppend 0 (Websites counts) (fun i =>
    match Urls contact !! i with
    | Some url =>
        [ normalizeLabel (Url.Type_ (value url)); Url.Value (value url) ]
    | None => [ ""; "" ]
    end) row in
  let row := forAppend 0 (CustomFields counts) (fun i =>
    match UserDefined contact !! i with
    | Some ud => [ UserDefined.Key (value ud); UserDefined.Value (value ud) ]
    | None => [ ""; "" ]
    end) row in
  let notes :=
    match Biographies contact with
    | bio :: _ => Biography.Value (value bio)
    | [] => ""
    end in
  let row := row ++ [ notes ] in
  let labels := extractLabels contact groupNameMap in
  row ++ [ Join labels labelSeparator ].

(** ** Errors and results *)

(** A Go [error]: one raised outside the repository (the remote service, the
    operating system, the JSON decoder), one made by [fmt.Errorf] around a
    cause, or one made by [fmt.Errorf] from a message alone. *)
Inductive error :=
| External (origin message : string)
| Wrap (context : string) (cause : error)
| New (message : string).

(** A Go pair [(value, err)]. *)
Inductive Result (A : Type) :=
| Ok (a : A)
| Err (e : error).
Arguments Ok {A} _.
Arguments Err {A} _.

(** ** The backup file (internal/models) *)

Definition BackupVersion := "1.0".

(** [BackupFile].  [CreatedAt] is a [time.Time], here the instant in
    nanoseconds; the counts are Go [int]s. *)
Record BackupFile := mkBackupFile {
  Version : string;
  CreatedAt : Z;
  ContactCount : Z;
  GroupCount : Z;
  Contacts : list Person;
  Groups : list ContactGroup
}.

(** [NewBackupFile]; [now] is the reading of [time.Now().UTC()]. *)
Definition NewBackupFile (now : Z) : BackupFile :=
  {| Version := BackupVersion;
     CreatedAt := now;
     ContactCount := 0;
     GroupCount := 0;
     Contacts := [];
     Groups := [] |}.

(** [AddContact] *)
Definition AddContact (b : BackupFile) (contact : Person) : BackupFile :=
  let contacts := Contacts b ++ [contact] in
  {| Version := Version b;
     CreatedAt := CreatedAt b;
     ContactCount := len contacts;
     GroupCount := GroupCount b;
     Contacts := contacts;
     Groups := Groups b |}.

(** [AddGroup] *)
Definition AddGroup (b : BackupFile) (group : ContactGroup) : BackupFile :=
  let groups := Groups b ++ [group] in
  {| Version := Version b;
     CreatedAt := CreatedAt b;
     ContactCount := ContactCount b;
     GroupCount := len groups;
     Contacts := Contacts b;
     Groups := groups |}.

Definition isUserContactGroup (group : ContactGroup) : bool :=
  String.eqb (GroupType group) "USER_CONTACT_GROUP".

(** [GetUserGroups] *)
Definition GetUserGroups (b : BackupFile) : list ContactGroup :=
  fold_left (fun userGroups group =>
    if isUserContactGroup group then userGroups ++ [group] else userGroups)
    (Groups b) [].

(** *** The file system *)

(** Files by path, and the paths that cannot be created or written. *)
Record FileSystem (B : Type) := mkFileSystem {
  files : gmap string B;
  denied : gset string
}.
Arguments mkFileSystem {B} _ _.
Arguments files {B} _.
Arguments denied {B} _.

(** [os.ReadFile] *)
Definition ReadFile {B} (path : string) (fs : FileSystem B) : Result B :=
  match files fs !! path with
  | Some data => Ok data
  | None => Err (External "os" "no such file or directory")
  end.

(** [os.WriteFile] *)
Definition WriteFile {B} (path : string) (data : B) (fs : FileSystem B)
    : option error * FileSystem B :=
  if decide (path ∈ denied fs)
  then (Some (External "os" "permission denied"), fs)
  else (None, mkFileSystem (<[path := data]> (files fs)) (denied fs)).

(** *** encoding/json, as far as [BackupFile] needs it *)

Inductive json :=
| JNull
| JBool (b : bool)
| JNumber (z : Z)
| JString (s : string)
| JArray (elements : list json)
| JObject (members : list (string * json)).

(** What the repository takes from its libraries: the text of a JSON value
    ([Bytes], written by [json.MarshalIndent] and read back by the syntax
    pass of [json.Unmarshal]), the encoding of the People API structs and
    the encoding of [time.Time]. *)
Record Codec := mkCodec {
  Bytes : Type;
  render : json -> Bytes;
  parse : Bytes -> option json;
  personToJSON : Person -> json;
  personOfJSON : json -> option Person;
  groupToJSON : ContactGroup -> json;
  groupOfJSON : json -> option ContactGroup;
  timeToJSON : Z -> json;
  timeOfJSON : json -> option Z
}.

(** The struct tags of [BackupFile], in field order: [json.Marshal]. *)
Definition marshalBackup (C : Codec) (b : BackupFile) : json :=
  JObject
    [ ("version", JString (Version b));
      ("created_at", timeToJSON C (CreatedAt b));
      ("contact_count", JNumber (ContactCount b));
      ("group_count", JNumber (GroupCount b));
      ("contacts", JArray (map (personToJSON C) (Contacts b)));
      ("groups", JArray (map (groupToJSON C) (Groups b))) ].

(** The decoder matches an object key against a struct tag without regard
    to letter case. *)
Definition keyMatches (key tag : string) : bool :=
  String.eqb (ToLower key) (ToLower tag).

Definition inIntRange (z : Z) : bool :=
  ((- 2 ^ 63 <=? z) && (z <? 2 ^ 63))%Z.

(** Decoding into a [string], an [int], a [time.Time] and a slice; [null]
    leaves a scalar as it is and empties a slice. *)
Definition decodeString (j : json) (old : string) : option string :=
  match j with
  | JNull => Some old
  | JString s => Some s
  | _ => None
  end.

Definition decodeInt (j : json) (old : Z) : option Z :=
  match j with
  | JNull => Some old
  | JNumber z => if inIntRange z then Some z else None
  | _ => None
  end.

Definition decodeTime (C : Codec) (j : json) (old : Z) : option Z :=
  match j with
  | JNull => Some old
  | _ => timeOfJSON C j
  end.

Definition decodeSlice {A} (dec : json -> option A) (j : json)
    : option (list A) :=
  match j with
  | JNull => Some []
  | JArray elements => mapM dec elements
  | _ => None
  end.

(** One object member decoded into the struct; unknown keys are skipped. *)
Definition decodeMember (C : Codec) (b : BackupFile) (member : string * json)
    : option BackupFile :=
  let '(key, v) := member in
  if keyMatches key "version" then
    s ← decodeString v (Version b);
    Some (mkBackupFile s (CreatedAt b) (ContactCount b) (GroupCount b)
            (Contacts b) (Groups b))
  else if keyMatches key "created_at" then
    t ← decodeTime C v (CreatedAt b);
    Some (mkBackupFile (Version b) t (ContactCount b) (GroupCount b)
            (Contacts b) (Groups b))
  else if keyMatches key "contact_count" then
    n ← decodeInt v (ContactCount b);
    Some (mkBackupFile (Version b) (CreatedAt b) n (GroupCount b)
            (Contacts b) (Groups b))
  else if keyMatches key "group_count" then
    n ← decodeInt v (GroupCount b);
    Some (mkBackupFile (Version b) (CreatedAt b) (ContactCount b) n
            (Contacts b) (Groups b))
  else if keyMatches key "contacts" then
    l ← decodeSlice (personOfJSON C) v;
    Some (mkBackupFile (Version b) (CreatedAt b) (ContactCount b)
            (GroupCount b) l (Groups b))
  else if keyMatches key "groups" then
    l ← decodeSlice (groupOfJSON C) v;
    Some (mkBackupFile (Version b) (CreatedAt b) (ContactCount b)
            (GroupCount b) (Contacts b) l)
  else Some b.

Fixpoint decodeMembers (C : Codec) (members : list (string * json))
    (b : BackupFile) : option BackupFile :=
  match members with
  | [] => Some b
  | member :: rest =>
      match decodeMember C b member with
      | Some b' => decodeMembers C rest b'
      | None => None
      end
  end.

(** The zero value [var backup BackupFile]. *)
Definition zeroBackup : BackupFile := mkBackupFile "" 0 0 0 [] [].

(** Decoding a JSON value into [&backup]. *)
Definition decodeBackup (C : Codec) (j : json) : option BackupFile :=
  match j with
  | JNull => Some zeroBackup
  | JObject members => decodeMembers C members zeroBackup
  | _ => None
  end.

(** [json.Unmarshal(data, &backup)] *)
Definition unmarshalBackup (C : Codec) (data : Bytes C) : Result BackupFile :=
  match parse C data with
  | Some j =>
      match decodeBackup C j with
      | Some backup => Ok backup
      | None => Err (External "json" "cannot unmarshal into BackupFile")
      end
  | None => Err (External "json" "invalid character")
  end.

(** [SaveToFile].  [json.MarshalIndent] does not fail on a [BackupFile], so
    only the write can. *)
Definition SaveToFile (C : Codec) (b : BackupFile) (path : string)
    (fs : FileSystem (Bytes C)) : option error * FileSystem (Bytes C) :=
  let data := render C (marshalBackup C b) in
  match WriteFile path data fs with
  | (Some err, fs') => (Some (Wrap "failed to write backup file" err), fs')
  | (None, fs') => (None, fs')
  end.

(** [LoadBackupFile] *)
Definition LoadBackupFile (C : Codec) (path : string)
    (fs : FileSystem (Bytes C)) : Result BackupFile :=
  match ReadFile path fs with
  | Err err => Err (Wrap "failed to read backup file" err)
  | Ok data =>
      match unmarshalBackup C data with
      | Err err => Err (Wrap "failed to parse backup file" err)
      | Ok backup =>
          if String.eqb (Version backup) ""
          then Err (New "invalid backup file: missing version")
          else Ok backup
      end
  end.

(** *** SaveToCSV *)

(** The records handed to [writer.Write], header first: a CSV file is
    modelled by its records. *)
Definition csvGroupNameMap (groups : list ContactGroup) : gmap string string :=
  fold_left (fun groupNameMap group =>
    if isUserContactGroup group
    then <[GroupResourceName group := GroupName group]> groupNameMap
    else groupNameMap) groups ∅.

(** The counts [SaveToCSV] works with: at least one e-mail and one phone. *)
Definition csvCounts (contacts : list Person) : csvFieldCounts :=
  let counts := countMaxFields contacts in
  let counts :=
    if (Emails counts =? 0)%Z
    then mkCounts 1 (Phones counts) (AddressesN counts) (EventsN counts)
           (RelationsN counts) (Websites counts) (CustomFields counts)
    else counts in
  if (Phones counts =? 0)%Z
  then mkCounts (Emails counts) 1 (AddressesN counts) (EventsN counts)
         (RelationsN counts) (Websites counts) (CustomFields counts)
  else counts.

Definition csvRecords (b : BackupFile) : list (list string) :=
  let groupNameMap := csvGroupNameMap (Groups b) in
  let counts := csvCounts (Contacts b) in
  let headers := buildCSVHeaders counts in
  fold_left (fun written contact =>
    written ++ [contactToCSVRow contact counts groupNameMap])
    (Contacts b) [headers].

(** [SaveToCSV]: [os.Create] can fail; the writes to the buffered writer
    are then all made. *)
Definition SaveToCSV (b : BackupFile) (path : string)
    (fs : FileSystem (list (list string)))
    : option error * FileSystem (list (list string)) :=
  match WriteFile path [] fs with
  | (Some err, fs') => (Some (Wrap "failed to create CSV file" err), fs')
  | (None, fs') =>
      (None, mkFileSystem (<[path := csvRecords b]> (files fs')) (denied fs'))
  end.

(** ** The People API client (internal/contacts) *)

Definition batchDeleteSize : nat := 500.
Definition batchCreateSize : nat := 200.

(** [people.ListConnectionsResponse] and [people.ListContactGroupsResponse] *)
Record ListConnectionsResponse := mkListConnectionsResponse {
  Connections : list Person;
  NextPageToken : string;
  TotalPeople : Z
}.

Record ListContactGroupsResponse := mkListContactGroupsResponse {
  ContactGroups : list ContactGroup;
  GroupsNextPageToken : string
}.

(** The remote directory: each call answers from the state of the service
    and may change it. *)
Record Service (World : Type) := mkService {
  ConnectionsList :
    string -> World -> Result ListConnectionsResponse * World;
  ContactGroupsList :
    string -> World -> Result ListContactGroupsResponse * World;
  BatchDeleteContacts : list string -> World -> option error * World;
  ContactGroupsDelete : string -> World -> option error * World;
  ContactGroupsCreate : string -> World -> Result ContactGroup * World;
  BatchCreateContacts : list Person -> World -> option error * World
}.
Arguments ConnectionsList {World} _ _ _.
Arguments ContactGroupsList {World} _ _ _.
Arguments BatchDeleteContacts {World} _ _ _.
Arguments ContactGroupsDelete {World} _ _ _.
Arguments ContactGroupsCreate {World} _ _ _.
Arguments BatchCreateContacts {World} _ _ _.

(** What a client function does besides returning: the requests it issues,
    the calls of its progress callback, the warning it prints, the pauses. *)
Inductive Event :=
| ListConnectionsCall (pageToken : string)
| ListGroupsCall (pageToken : string)
| BatchDeleteCall (resourceNames : list string)
| DeleteGroupCall (resourceName : string)
| CreateGroupCall (name : string)
| BatchCreateCall (contacts : list Person)
| Progress (current total : Z)
| Warning (groupName : string) (err : error)
| Sleep.

(** A client computation: from a state of the service to a value, the events
    in order and the next state; [None] when the fuel of a page loop ran
    out. *)
Definition M (World A : Type) : Type :=
  World -> option (A * list Event * World).

Definition ret {World A} (a : A) : M World A :=
  fun w => Some (a, [], w).

Definition bind {World A B} (m : M World A) (f : A -> M World B) : M World B :=
  fun w =>
    match m w with
    | Some (a, t1, w1) =>
        match f a w1 with
        | Some (b, t2, w2) => Some (b, t1 ++ t2, w2)
        | None => None
        end
    | None => None
    end.

Definition outOfFuel {World A} : M World A := fun _ => None.

Definition emit {World} (e : Event) : M World unit :=
  fun w => Some (tt, [e], w).

Definition request {World A} (e : Event) (call : World -> A * World)
    : M World A :=
  fun w => let '(a, w') := call w in Some (a, [e], w').

Declare Scope client_scope.
Delimit Scope client_scope with client.
Notation "x <- m ;; k" := (bind m (fun x => k))
  (at level 100, m at level 99, k at level 200, right associativity,
   only parsing) : client_scope.
Notation "m ;;; k" := (bind m (fun _ => k))
  (at level 100, k at level 200, right associativity, only parsing)
  : client_scope.

Section Client.
Context {World : Type} (svc : Service World).
Local Open Scope client_scope.

  (** [if progressFn != nil { progressFn(current, total) }] *)
Definition report (progressFn : bool) (current total : Z) : M World unit :=
    if progressFn then emit (Progress current total) else ret tt.

  (** The page loop of [ListContacts]. *)
Fixpoint listContactsLoop (fuel : nat) (progressFn : bool)
      (allContacts : list Person) (pageToken : string) (totalCount : Z)
      : M World (Result (list Person)) :=
    match fuel with
    | O => outOfFuel
    | S fuel' =>
        r <- request (ListConnectionsCall pageToken)
               (ConnectionsList svc pageToken) ;;
        match r with
        | Err err => ret (Err (Wrap "failed to list contacts" err))
        | Ok resp =>
            let totalCount :=
              if (totalCount =? 0)%Z && (TotalPeople resp >? 0)%Z
              then TotalPeople resp else totalCount in
            let allContacts := allContacts ++ Connections resp in
            report progressFn (len allContacts) totalCount ;;;
            let pageToken := NextPageToken resp in
            if String.eqb pageToken "" then ret (Ok allContacts)
            else emit Sleep ;;; listContactsLoop fuel' progressFn allContacts
                                  pageToken totalCount
        end
    end.

  (** [ListContacts] *)
Definition ListContacts (fuel : nat) (progressFn : bool)
      : M World (Result (list Person)) :=
    listContactsLoop fuel progressFn [] "" 0.

  (** The page loop of [ListGroups]. *)
Fixpoint listGroupsLoop (fuel : nat) (allGroups : list ContactGroup)
      (pageToken : string) : M World (Result (list ContactGroup)) :=
    match fuel with
    | O => outOfFuel
    | S fuel' =>
        r <- request (ListGroupsCall pageToken)
               (ContactGroupsList svc pageToken) ;;
        match r with
        | Err err => ret (Err (Wrap "failed to list contact groups" err))
        | Ok resp =>
            let allGroups := allGroups ++ ContactGroups resp in
            let pageToken := GroupsNextPageToken resp in
            if String.eqb pageToken "" then ret (Ok allGroups)
            else emit Sleep ;;; listGroupsLoop fuel' allGroups pageToken
        end
    end.

  (** [ListGroups] *)
Definition ListGroups (fuel : nat) : M World (Result (list ContactGroup)) :=
    listGroupsLoop fuel [] "".

  (** The batch loop shared in shape by [DeleteAllContacts] and
      [CreateContacts]:
      [for i := 0; i < len(items); i += size { end := min(i+size, len);
       batch := items[i:end]; send; done += len(batch); report; sleep }].
      [steps] bounds the iterations; the callers pass more than the loop can
      use. *)
Fixpoint batchLoop {A} (steps size : nat) (items : list A)
      (send : list A -> M World (option error)) (context : string)
      (progressFn : bool) (total : Z) (i : nat) (done : Z)
      : M World (option error) :=
    match steps with
    | O => outOfFuel
    | S steps' =>
        if (i <? length items)%nat then
          let end_ := (i + size)%nat in
          let end_ := if (length items <? end_)%nat then length items else end_ in
          let batch := take (end_ - i) (drop i items) in
          r <- send batch ;;
          match r with
          | Some err => ret (Some (Wrap context err))
          | None =>
              let done := (done + len batch)%Z in
              report progressFn done total ;;;
              emit Sleep ;;;
              batchLoop steps' size items send context progressFn total
                (i + size) done
          end
        else ret None
    end.

  (** The resource names [DeleteAllContacts] collects: the non-empty ones. *)
Definition collectResourceNames (contacts : list Person) : list string :=
    fold_left (fun resourceNames contact =>
      if String.eqb (ResourceName contact) "" then resourceNames
      else resourceNames ++ [ResourceName contact]) contacts [].

  (** [DeleteAllContacts] *)
Definition DeleteAllContacts (fuel : nat) (progressFn : bool)
      : M World (option error) :=
    r <- ListContacts fuel false ;;
    match r with
    | Err err => ret (Some err)
    | Ok contacts =>
        if (length contacts =? 0)%nat then ret None else
        let totalContacts := len contacts in
        let resourceNames := collectResourceNames contacts in
        batchLoop (S (length resourceNames)) batchDeleteSize resourceNames
          (fun batch => request (BatchDeleteCall batch)
                          (BatchDeleteContacts svc batch))
          "failed to delete contacts batch" progressFn totalContacts 0 0
    end.

  (** The deletion loop of [DeleteUserGroups]; returns the counter
      [deleted]. *)
Fixpoint deleteGroupsLoop (userGroups : list ContactGroup)
      (progressFn : bool) (totalGroups : Z) (deleted : Z) : M World Z :=
    match userGroups with
    | [] => ret deleted
    | group :: rest =>
        r <- request (DeleteGroupCall (GroupResourceName group))
               (ContactGroupsDelete svc (GroupResourceName group)) ;;
        deleted <- match r with
                   | Some err =>
                       emit (Warning (GroupName group) err) ;;; ret deleted
                   | None => ret (deleted + 1)%Z
                   end ;;
        report progressFn deleted totalGroups ;;;
        emit Sleep ;;;
        deleteGroupsLoop rest progressFn totalGroups deleted
    end.

  (** [DeleteUserGroups] *)
Definition DeleteUserGroups (fuel : nat) (progressFn : bool)
      : M World (option error) :=
    r <- ListGroups fuel ;;
    match r with
    | Err err => ret (Some err)
    | Ok groups =>
        let userGroups :=
          fold_left (fun userGroups group =>
            if isUserContactGroup group then userGroups ++ [group]
            else userGroups) groups [] in
        if (length userGroups =? 0)%nat then ret None else
        deleteGroupsLoop userGroups progressFn (len userGroups) 0 ;;;
        ret None
    end.

  (** The loop of [CreateGroups]. *)
Fixpoint createGroupsLoop (groups : list ContactGroup) (progressFn : bool)
      (totalGroups : Z) (resourceNameMap : gmap string string) (created : Z)
      : M World (Result (gmap string string)) :=
    match groups with
    | [] => ret (Ok resourceNameMap)
    | group :: rest =>
        if negb (isUserContactGroup group)
        then createGroupsLoop rest progressFn totalGroups resourceNameMap
               created
        else
          r <- request (CreateGroupCall (GroupName group))
                 (ContactGroupsCreate svc (GroupName group)) ;;
          match r with
          | Err err =>
              ret (Err (Wrap ("failed to create group " ++ GroupName group)
                          err))
          | Ok newGroup =>
              let resourceNameMap :=
                <[GroupResourceName group := GroupResourceName newGroup]>
                  resourceNameMap in
              let created := (created + 1)%Z in
              report progressFn created totalGroups ;;;
              emit Sleep ;;;
              createGroupsLoop rest progressFn totalGroups resourceNameMap
                created
          end
    end.

  (** [CreateGroups] *)
Definition CreateGroups (groups : list ContactGroup) (progressFn : bool)
      : M World (Result (gmap string string)) :=
    createGroupsLoop groups progressFn (len groups) ∅ 0.

  (** [CreateContacts]: each batch is sanitised, then sent. *)
Definition CreateContacts (contacts : list Person)
      (groupMap : gmap string string) (progressFn : bool)
      : M World (option error) :=
    if (length contacts =? 0)%nat then ret None else
    batchLoop (S (length contacts)) batchCreateSize contacts
      (fun batch =>
         let contactsToCreate :=
           map (fun contact => cleanContactForCreation contact groupMap)
             batch in
         request (BatchCreateCall contactsToCreate)
           (BatchCreateContacts svc contactsToCreate))
      "failed to create contacts batch" progressFn (len contacts) 0 0.
End Client.

(** The batches sent for deletion, and for creation, among the events. *)
Definition deleteBatches (events : list Event) : list (list string) :=
  omap (fun e => match e with BatchDeleteCall b => Some b | _ => None end)
    events.

Definition createBatches (events : list Event) : list (list Person) :=
  omap (fun e => match e with BatchCreateCall b => Some b | _ => None end)
    events.

Definition deletedGroups (events : list Event) : list string :=
  omap (fun e => match e with DeleteGroupCall n => Some n | _ => None end)
    events.

Definition warnings (events : list Event) : list (string * error) :=
  omap (fun e => match e with Warning n err => Some (n, err) | _ => None end)
    events.

Definition progressReports (events : list Event) : list (Z * Z) :=
  omap (fun e => match e with Progress c t => Some (c, t) | _ => None end)
    events.

(** [ceil(n / b)] *)
Definition ceilDiv (n b : nat) : nat := ((n + b - 1) / b)%nat.

(** ** The commands (cmd)

    The commands are modelled from the point where their flags are read.
    What they print on the terminal and the drawing of the progress bars
    are left out; authentication ([GetClient]) and the construction of the
    client ([NewClient]) are given by their results. *)

(** [strings.TrimSpace] removes the leading and the trailing white space of
    [unicode.IsSpace].  On the bytes of a string these are the six ASCII
    characters tab, line feed, vertical tab, form feed, carriage return and
    space, and the UTF-8 encodings of U+0085, U+00A0 (two bytes) and of
    U+1680, U+2000 to U+200A, U+2028, U+2029, U+202F, U+205F and U+3000
    (three bytes).  A byte that starts no such encoding, an invalid one
    included, is no white space. *)
Definition isSpace (c : ascii) : bool :=
  let n := nat_of_ascii c in
  (n =? 32)%nat || ((9 <=? n)%nat && (n <=? 13)%nat).

Definition isSpace2 (c1 c2 : ascii) : bool :=
  let n1 := nat_of_ascii c1 in
  let n2 := nat_of_ascii c2 in
  (n1 =? 194)%nat && ((n2 =? 133)%nat || (n2 =? 160)%nat).

Definition isSpace3 (c1 c2 c3 : ascii) : bool :=
  let n1 := nat_of_ascii c1 in
  let n2 := nat_of_ascii c2 in
  let n3 := nat_of_ascii c3 in
  ((n1 =? 225)%nat && (n2 =? 154)%nat && (n3 =? 128)%nat) ||
  ((n1 =? 226)%nat && (n2 =? 128)%nat &&
   (((128 <=? n3)%nat && (n3 <=? 138)%nat) || (n3 =? 168)%nat ||
    (n3 =? 169)%nat || (n3 =? 175)%nat)) ||
  ((n1 =? 226)%nat && (n2 =? 129)%nat && (n3 =? 159)%nat) ||
  ((n1 =? 227)%nat && (n2 =? 128)%nat && (n3 =? 128)%nat).

(** The white space at the start: runes are decoded forwards. *)
Fixpoint trimLeft (s : string) : string :=
  match s with
  | EmptyString => EmptyString
  | String c1 s1 =>
      if isSpace c1 then trimLeft s1 else
      match s1 with
      | EmptyString => s
      | String c2 s2 =>
          if isSpace2 c1 c2 then trimLeft s2 else
          match s2 with
          | EmptyString => s
          | String c3 s3 => if isSpace3 c1 c2 c3 then trimLeft s3 else s
          end
      end
  end.

(** The white space at the end: runes are decoded backwards, so the bytes
    come last first. *)
Fixpoint trimEnd (reversed : list ascii) : list ascii :=
  match reversed with
  | [] => []
  | c1 :: r1 =>
      if isSpace c1 then trimEnd r1 else
      match r1 with
      | [] => reversed
      | c2 :: r2 =>
          if isSpace2 c2 c1 then trimEnd r2 else
          match r2 with
          | [] => reversed
          | c3 :: r3 => if isSpace3 c3 c2 c1 then trimEnd r3 else reversed
          end
      end
  end.

Definition trimRight (s : string) : string :=
  string_of_list_ascii (rev (trimEnd (rev (list_ascii_of_string s)))).

Definition TrimSpace (s : string) : string := trimRight (trimLeft s).

(** The answer that lets a restore go on:
    [strings.TrimSpace(strings.ToLower(response))] is ["yes"] or ["y"].
    [ToLower] maps the ASCII letters; no letter beyond ASCII has [y], [e] or
    [s] as its lower case, and lower-casing neither makes nor removes white
    space, so the test reads the same on every answer. *)
Definition confirmed (response : string) : bool :=
  let response := TrimSpace (ToLower response) in
  String.eqb response "yes" || String.eqb response "y".

(** [runRestore].  [stdin] is the line read from the terminal (or the read
    error), [authenticate] and [newClient] the errors of [GetClient] and
    [NewClient], if any. *)
Definition runRestore {World} (C : Codec) (svc : Service World)
    (inputFile credentialsFile : string) (fs : FileSystem (Bytes C))
    (credentialsExist skipConfirm : bool) (stdin : Result string)
    (authenticate newClient : option error) (fuel : nat)
    : M World (option error) :=
  match files fs !! inputFile with
  | None => ret (Some (New (String.append "backup file not found: " inputFile)))
  | Some _ =>
  match LoadBackupFile C inputFile fs with
  | Err err => ret (Some (Wrap "failed to load backup" err))
  | Ok backup =>
  if negb credentialsExist
  then ret (Some (New (String.append "credentials file not found: "
                         credentialsFile)))
  else
  match (if skipConfirm then Ok true
         else match stdin with
              | Err err => Err (Wrap "failed to read response" err)
              | Ok response => Ok (confirmed response)
              end) with
  | Err err => ret (Some err)
  | Ok false => ret None
  | Ok true =>
  match authenticate with
  | Some err => ret (Some (Wrap "authentication failed" err))
  | None =>
  match newClient with
  | Some err => ret (Some (Wrap "failed to create contacts client" err))
  | None =>
    (r <- DeleteAllContacts svc fuel true ;;
     match r with
     | Some err => ret (Some (Wrap "failed to delete contacts" err))
     | None =>
     r <- DeleteUserGroups svc fuel true ;;
     match r with
     | Some err => ret (Some (Wrap "failed to delete groups" err))
     | None =>
     let userGroups := GetUserGroups backup in
     r <- (if (0 <? length userGroups)%nat
           then CreateGroups svc userGroups true
           else ret (Ok ∅)) ;;
     match r with
     | Err err => ret (Some (Wrap "failed to create groups" err))
     | Ok groupMap =>
     r <- (if (0 <? length (Contacts backup))%nat
           then CreateContacts svc (Contacts backup) groupMap true
           else ret None) ;;
     match r with
     | Some err => ret (Some (Wrap "failed to create contacts" err))
     | None => ret None
     end
     end
     end
     end)%client
  end
  end
  end
  end
  end.

(** [runBackup], the command that writes the JSON file.  It returns the
    error, if any, and the file system as far as the backup file goes: the
    token cache that [GetClient] may write is not part of it, and a write
    either stores the whole file or is refused before it starts. *)
Definition runBackup {World} (C : Codec) (svc : Service World)
    (outputFile credentialsFile : string) (fs : FileSystem (Bytes C))
    (credentialsExist : bool) (authenticate newClient : option error)
    (now : Z) (fuel : nat)
    : M World (option error * FileSystem (Bytes C)) :=
  if negb credentialsExist
  then ret (Some (New (String.append "credentials file not found: "
                         credentialsFile)), fs)
  else
  match authenticate with
  | Some err => ret (Some (Wrap "authentication failed" err), fs)
  | None =>
  match newClient with
  | Some err => ret (Some (Wrap "failed to create contacts client" err), fs)
  | None =>
    (let backup := NewBackupFile now in
     r <- ListGroups svc fuel ;;
     match r with
     | Err err => ret (Some (Wrap "failed to fetch contact groups" err), fs)
     | Ok groups =>
     let backup := fold_left AddGroup groups backup in
     r <- ListContacts svc fuel true ;;
     match r with
     | Err err => ret (Some (Wrap "failed to fetch contacts" err), fs)
     | Ok contactsList =>
     let backup := fold_left AddContact contactsList backup in
     match SaveToFile C backup outputFile fs with
     | (Some err, fs') => ret (Some (Wrap "failed to save backup" err), fs')
     | (None, fs') => ret (None, fs')
     end
     end
     end)%client
  end
  end.

(** ** Authentication (internal/auth) *)

(** [oauth2.Token] and the client identity of [oauth2.Config]. *)
Record Token := mkToken {
  AccessToken : string;
  RefreshToken : string;
  Expiry : Z
}.

Record Config := mkConfig {
  ClientID : string;
  ClientSecret : string
}.

(** What [GetClient] relies on, each used at most once in a call: the
    result of [loadCredentials], the result of [loadToken], [token.Valid],
    the refresh exchange of the token source, [saveToken] and
    [doOAuthFlow]. *)
Record AuthEnv := mkAuthEnv {
  loadCredentials : Result Config;
  loadToken : Result Token;
  Valid : Token -> bool;
  refreshToken : Token -> Result Token;
  saveToken : Token -> option error;
  doOAuthFlow : Result Token
}.

Inductive AuthEvent :=
| RefreshExchange
| InteractiveFlow
| TokenSaved (token : Token)
| SaveWarning (err : error).

(** [saveToken] followed by the warning printed when it fails. *)
Definition saveOrWarn (env : AuthEnv) (token : Token) : list AuthEvent :=
  match saveToken env token with
  | Some err => [SaveWarning err]
  | None => [TokenSaved token]
  end.

(** [GetClient]: the client is given by the configuration and the token it
    signs with. *)
Definition GetClient (env : AuthEnv)
    : Result (Config * Token) * list AuthEvent :=
  match loadCredentials env with
  | Err err => (Err (Wrap "failed to load credentials" err), [])
  | Ok config =>
      let interactive (before : list AuthEvent) :=
        match doOAuthFlow env with
        | Err err =>
            (Err (Wrap "OAuth flow failed" err), before ++ [InteractiveFlow])
        | Ok token =>
            (Ok (config, token),
             before ++ [InteractiveFlow] ++ saveOrWarn env token)
        end in
      match loadToken env with
      | Ok token =>
          if Valid env token then (Ok (config, token), [])
          else if negb (String.eqb (RefreshToken token) "") then
            match refreshToken env token with
            | Ok newToken =>
                (Ok (config, newToken),
                 [RefreshExchange] ++ saveOrWarn env newToken)
            | Err _ => interactive [RefreshExchange]
            end
          else interactive []
      | Err _ => interactive []
      end
  end.

(** ** The four phases of a restore *)

Definition deleteContactsEvent (e : Event) : Prop :=
  match e with
  | ListConnectionsCall _ | BatchDeleteCall _ | Progress _ _ | Sleep => True
  | _ => False
  end.

Definition deleteGroupsEvent (e : Event) : Prop :=
  match e with
  | ListGroupsCall _ | DeleteGroupCall _ | Warning _ _ | Progress _ _
  | Sleep => True
  | _ => False
  end.

Definition createGroupsEvent (e : Event) : Prop :=
  match e with
  | CreateGroupCall _ | Progress _ _ | Sleep => True
  | _ => False
  end.

Definition createContactsEvent (e : Event) : Prop :=
  match e with
  | BatchCreateCall _ | Progress _ _ | Sleep => True
  | _ => False
  end.

(** ** Vocabulary of the properties *)

(** The metadata stamps of the twenty-three groups [clearFieldMetadata]
    walks over. *)
Definition clearedGroupsMetadata (p : Person) : list (option FieldMetadata) :=
  map Metadata (Names p) ++ map Metadata (Nicknames p) ++
  map Metadata (EmailAddresses p) ++ map Metadata (PhoneNumbers p) ++
  map Metadata (Addresses p) ++ map Metadata (Organizations p) ++
  map Metadata (Birthdays p) ++ map Metadata (Biographies p) ++
  map Metadata (Urls p) ++ map Metadata (UserDefined p) ++
  map Metadata (Events p) ++ map Metadata (Relations p) ++
  map Metadata (Occupations p) ++ map Metadata (Genders p) ++
  map Metadata (ImClients p) ++ map Metadata (Interests p) ++
  map Metadata (SipAddresses p) ++ map Metadata (CalendarUrls p) ++
  map Metadata (ExternalIds p) ++ map Metadata (Locales p) ++
  map Metadata (Locations p) ++ map Metadata (MiscKeywords p) ++
  map Metadata (ClientData p).

(** The metadata stamps of every field-group entry of a record. *)
Definition fieldMetadata (p : Person) : list (option FieldMetadata) :=
  clearedGroupsMetadata p ++ map Metadata (Memberships p) ++
  map Metadata (FileAses p) ++ map Metadata (Photos p) ++
  map Metadata (CoverPhotos p).

Definition noFieldMetadata (p : Person) : Prop :=
  Forall (fun stamp => stamp = None) (fieldMetadata p).

(** The group a membership refers to, when it refers to one. *)
Definition groupOf (m : Membership) : option string :=
  ContactGroupResourceName <$> ContactGroupMembership (value m).

Definition preservedGroup := "contactGroups/myContacts".

(** A membership of the output is accounted for: it is a membership of the
    input that refers to the preserved group, or the rewriting of a
    reference of the input through the remap table. *)
Definition accountedFor (contact : Person) (groupMap : gmap string string)
    (m : Membership) : Prop :=
  (m ∈ Memberships contact ∧ groupOf m = Some preservedGroup) ∨
  (∃ m0 old new, m0 ∈ Memberships contact ∧ groupOf m0 = Some old ∧
     groupMap !! old = Some new ∧ m = remappedMembership new).

(** The sanitise property of the specification, for one record and table. *)
Definition sanitized (contact : Person) (groupMap : gmap string string)
    : Prop :=
  let out := cleanContactForCreation contact groupMap in
  ResourceName out = "" ∧ noFieldMetadata out ∧
  Forall (accountedFor contact groupMap) (Memberships out).

(** The membership rule in the words of the specification (section 4.4):
    the preserved system group is copied, any other system group is dropped,
    a user-defined group goes through the remap table.  System groups are
    the well-known names, matched exactly ([isSystemGroup]). *)
Definition specMembership (groupMap : gmap string string) (m : Membership)
    : list Membership :=
  match groupOf m with
  | Some name =>
      if String.eqb name preservedGroup then [m]
      else if isSystemGroup name then []
      else match groupMap !! name with
           | Some new => [remappedMembership new]
           | None => []
           end
  | None => []
  end.

(** The names the sanitiser tests as prefixes. *)
Definition sanitizerSystemPrefixes : list string :=
  [ "contactGroups/myContacts"; "contactGroups/starred";
    "contactGroups/chatBuddies"; "contactGroups/all";
    "contactGroups/friends"; "contactGroups/family";
    "contactGroups/coworkers" ].

Definition hasSystemPrefix (name : string) : bool :=
  existsb (HasPrefix name) sanitizerSystemPrefixes.

(** The membership rule as the sanitiser applies it. *)
Definition sanitizerMembership (groupMap : gmap string string)
    (m : Membership) : list Membership :=
  match groupOf m with
  | Some name =>
      if String.eqb name preservedGroup then [m]
      else if negb (HasPrefix name "contactGroups/") || hasSystemPrefix name
      then []
      else match groupMap !! name with
           | Some new => [remappedMembership new]
           | None => []
           end
  | None => []
  end.

(** The largest number of entries of one group over a record set. *)
Definition maxOccurrence {A} (group : Person -> list A)
    (contacts : list Person) : Z :=
  fold_right Z.max 0%Z (map (fun contact => len (group contact)) contacts).

(** The column count of the header in closed form: fourteen singular
    columns, a pair per repeated entry, eight columns per address, and the
    notes and labels columns. *)
Definition headerWidth (counts : csvFieldCounts) : nat :=
  14 + 2 * Z.to_nat (Emails counts) + 2 * Z.to_nat (Phones counts) +
  8 * Z.to_nat (AddressesN counts) + 2 * Z.to_nat (EventsN counts) +
  2 * Z.to_nat (RelationsN counts) + 2 * Z.to_nat (Websites counts) +
  2 * Z.to_nat (CustomFields counts) + 2.

(** The invariant of an archive: the counts are the lengths of the lists. *)
Definition countsConsistent (b : BackupFile) : Prop :=
  ContactCount b = len (Contacts b) ∧ GroupCount b = len (Groups b).

(** An archive the libraries can write and read back: the text of its JSON
    value parses to that value, its timestamp, records and categories are
    decoded to themselves, and its counts are Go [int]s. *)
Definition representable (C : Codec) (b : BackupFile) : Prop :=
  parse C (render C (marshalBackup C b)) = Some (marshalBackup C b) ∧
  timeToJSON C (CreatedAt b) ≠ JNull ∧
  timeOfJSON C (timeToJSON C (CreatedAt b)) = Some (CreatedAt b) ∧
  Forall (fun p => personOfJSON C (personToJSON C p) = Some p) (Contacts b) ∧
  Forall (fun g => groupOfJSON C (groupToJSON C g) = Some g) (Groups b) ∧
  inIntRange (ContactCount b) = true ∧ inIntRange (GroupCount b) = true.

(** A well-formed archive: it has a version tag and can be represented. *)
Definition wellFormed (C : Codec) (b : BackupFile) : Prop :=
  Version b ≠ "" ∧ representable C b.

(** The pages of the connections listing, from the request with cursor
    [pageToken] in state [w]: each answer but the last names the cursor of
    the next request, the last has the empty cursor. *)
Inductive connectionPages {World} (svc : Service World)
    : string -> World -> list (list Person) -> World -> Prop :=
| connections_last pageToken w items total w' :
    ConnectionsList svc pageToken w =
      (Ok (mkListConnectionsResponse items "" total), w') ->
    connectionPages svc pageToken w [items] w'
| connections_next pageToken w items next total w1 pages w' :
    ConnectionsList svc pageToken w =
      (Ok (mkListConnectionsResponse items next total), w1) ->
    next ≠ "" ->
    connectionPages svc next w1 pages w' ->
    connectionPages svc pageToken w (items :: pages) w'.

Inductive groupPages {World} (svc : Service World)
    : string -> World -> list (list ContactGroup) -> World -> Prop :=
| groups_last pageToken w items w' :
    ContactGroupsList svc pageToken w =
      (Ok (mkListContactGroupsResponse items ""), w') ->
    groupPages svc pageToken w [items] w'
| groups_next pageToken w items next w1 pages w' :
    ContactGroupsList svc pageToken w =
      (Ok (mkListContactGroupsResponse items next), w1) ->
    next ≠ "" ->
    groupPages svc next w1 pages w' ->
    groupPages svc pageToken w (items :: pages) w'.

(** The events of a listing: page requests, progress reports and pauses. *)
Definition listingEvent (e : Event) : Prop :=
  match e with
  | ListConnectionsCall _ | ListGroupsCall _ | Progress _ _ | Sleep => True
  | _ => False
  end.

Definition connectionRequests (events : list Event) : list string :=
  omap (fun e => match e with ListConnectionsCall t => Some t | _ => None end)
    events.

Definition groupRequests (events : list Event) : list string :=
  omap (fun e => match e with ListGroupsCall t => Some t | _ => None end)
    events.

(** The user-defined categories of a list. *)
Definition userGroupsOf (groups : list ContactGroup) : list ContactGroup :=
  filter (fun g => GroupType g = "USER_CONTACT_GROUP") groups.

(** The answers of the service to the deletion requests for the given
    categories, sent one after the other from state [w]. *)
Fixpoint deletionAnswers {World} (svc : Service World)
    (groups : list ContactGroup) (w : World)
    : list (ContactGroup * option error) :=
  match groups with
  | [] => []
  | group :: rest =>
      let '(answer, w') := ContactGroupsDelete svc (GroupResourceName group) w in
      (group, answer) :: deletionAnswers svc rest w'
  end.

(** The refused deletions, by category name, and the number of accepted
    ones. *)
Definition refusedDeletions (answers : list (ContactGroup * option error))
    : list (string * error) :=
  omap (fun '(group, answer) =>
          match answer with
          | Some err => Some (GroupName group, err)
          | None => None
          end) answers.

Definition acceptedDeletions (answers : list (ContactGroup * option error))
    : Z :=
  len (filter (fun '(_, answer) => answer = None) answers).

(** An ASCII lower-case letter. *)
Definition isLowerLetter (c : ascii) : bool :=
  (97 <=? nat_of_ascii c)%nat && (nat_of_ascii c <=? 122)%nat.

(** The cells of the [i]-th entry of a repeated group in a row: those of
    the entry when the contact has one, blanks otherwise. *)
Definition cells {A} (render : A -> list string) (blank : list string)
    (entries : list A) (i : nat) : list string :=
  match entries !! i with
  | Some entry => render entry
  | None => blank
  end.

Definition emailCells (email : Entry EmailAddress.t) : list string :=
  [ normalizeLabel (EmailAddress.Type_ (value email));
    EmailAddress.Value (value email) ].

Definition phoneCells (phone : Entry PhoneNumber.t) : list string :=
  [ normalizeLabel (PhoneNumber.Type_ (value phone));
    PhoneNumber.Value (value phone) ].

Definition addressCells (addr : Entry Address.t) : list string :=
  [ normalizeLabel (Address.Type_ (value addr));
    Address.StreetAddress (value addr); Address.ExtendedAddress (value addr);
    Address.City (value addr); Address.Region (value addr);
    Address.PostalCode (value addr); Address.Country (value addr);
    Address.PoBox (value addr) ].

Definition eventCells (event : Entry Event.t) : list string :=
  [ normalizeLabel (Event.Type_ (value event));
    formatDate (Event.Date (value event)) ].

Definition relationCells (rel : Entry Relation.t) : list string :=
  [ normalizeLabel (Relation.Type_ (value rel)); Relation.Person (value rel) ].

Definition urlCells (url : Entry Url.t) : list string :=
  [ normalizeLabel (Url.Type_ (value url)); Url.Value (value url) ].

Definition customCells (ud : Entry UserDefined.t) : list string :=
  [ UserDefined.Key (value ud); UserDefined.Value (value ud) ].

Definition blank2 : list string := [ ""; "" ].
Definition blank8 : list string := [ ""; ""; ""; ""; ""; ""; ""; "" ].

(** The names sent for creation among the events. *)
Definition createdGroups (events : list Event) : list string :=
  omap (fun e => match e with CreateGroupCall n => Some n | _ => None end)
    events.

(** The numbers of contacts fetched after each page, from [fetched] on. *)
Fixpoint runningCounts (fetched : Z) (pages : list (list Person)) : list Z :=
  match pages with
  | [] => []
  | page :: rest =>
      (fetched + len page)%Z :: runningCounts (fetched + len page)%Z rest
  end.

(** A new identifier of the table comes from an answer of the service to
    the creation of a user-defined category of the list. *)
Definition answeredFor {World} (svc : Service World)
    (groups : list ContactGroup) (old new : string) : Prop :=
  ∃ group w0 newGroup w1,
    group ∈ userGroupsOf groups ∧ GroupResourceName group = old ∧
    ContactGroupsCreate svc (GroupName group) w0 = (Ok newGroup, w1) ∧
    GroupResourceName newGroup = new.

(** The service accepts the batches one after the other: [answer] is the
    remote call, [w] the state before the first batch and [w'] the state
    after the last. *)
Fixpoint acceptedBatches {World B} (answer : B -> World -> option error * World)
    (batches : list B) (w w' : World) : Prop :=
  match batches with
  | [] => w' = w
  | batch :: rest =>
      ∃ w1, answer batch w = (None, w1) ∧ acceptedBatches answer rest w1 w'
  end.

(** The requests of the two listings among the events of a backup. *)
Definition groupListingEvent (e : Event) : Prop :=
  match e with
  | ListGroupsCall _ | Sleep => True
  | _ => False
  end.

Definition contactListingEvent (e : Event) : Prop :=
  match e with
  | ListConnectionsCall _ | Progress _ _ | Sleep => True
  | _ => False
  end.

(** *** Sample data *)

Definition contactSource : FieldMetadata :=
  mkFieldMetadata true false "CONTACT" "4f2a9c".

Definition membershipOf (name : string) (stamp : option FieldMetadata)
    : Membership :=
  mkEntry stamp (mkMembershipData (Some (mkContactGroupMembership "" name)) None).

(** A contact as the service returns it: a name and a membership of
    [myContacts], both stamped. *)
Definition alice : Person :=
  mkPerson "people/c1" "%EgUBAj0DNy4=" (Some "CONTACT")
    [mkEntry (Some contactSource)
       (Name.mk "" "Alice" "" "Liddell" "" "" "" "")]
    [] [mkEntry (Some contactSource) (EmailAddress.mk "home" "alice@example.org");
        mkEntry (Some contactSource) (EmailAddress.mk "work" "al@example.com")]
    [] [] [] [] [] [] [] [] [] [] [] [] [] [] [] [] [] [] [] []
    [membershipOf "contactGroups/myContacts" (Some contactSource);
     membershipOf "contactGroups/6a1b" (Some contactSource)]
    [] [] [].

Definition bob : Person :=
  mkPerson "people/c2" "" None
    [mkEntry None (Name.mk "" "Bob" "" "" "" "" "" "")]
    [] [] [] [] [] [] [] [] [] [] [] [] [] [] [] [] [] [] [] [] [] []
    [membershipOf "contactGroups/family2" None] [] [] [].

Definition sampleGroupMap : gmap string string :=
  {[ "contactGroups/6a1b" := "contactGroups/77c0";
     "contactGroups/family2" := "contactGroups/77c1" ]}.

(** A small codec: a file holds a JSON value or text that is not JSON; a
    record is written by its resource name, a category by its three fields,
    an instant as a number. *)
Definition personWithName (resourceName : string) : Person :=
  mkPerson resourceName "" None [] [] [] [] [] [] [] [] [] [] [] [] [] [] []
           [] [] [] [] [] [] [] [] [] [] [] [].

Definition sampleCodec : Codec :=
  {| Bytes := option json;
     render := Some;
     parse := fun data => data;
     personToJSON := fun p =>
       JObject [("resourceName", JString (ResourceName p))];
     personOfJSON := fun j =>
       match j with
       | JObject [(_, JString r)] => Some (personWithName r)
       | _ => None
       end;
     groupToJSON := fun g =>
       JArray [JString (GroupResourceName g); JString (GroupName g);
               JString (GroupType g)];
     groupOfJSON := fun j =>
       match j with
       | JArray [JString r; JString n; JString t] =>
           Some (mkContactGroup r n t)
       | _ => None
       end;
     timeToJSON := JNumber;
     timeOfJSON := fun j =>
       match j with JNumber z => Some z | _ => None end |}.

Definition friendsGroup : ContactGroup :=
  mkContactGroup "contactGroups/6a1b" "Friends of Alice" "USER_CONTACT_GROUP".

Definition myContactsGroup : ContactGroup :=
  mkContactGroup "contactGroups/myContacts" "myContacts" "SYSTEM_CONTACT_GROUP".

Definition sampleBackup : BackupFile :=
  AddContact
    (AddGroup (AddGroup (NewBackupFile 1767225600) myContactsGroup)
       friendsGroup)
    (personWithName "people/c1").

Definition emptyDisk : FileSystem (option json) := mkFileSystem ∅ ∅.

(** A hand-written backup file with a version tag and a count, and nothing
    else. *)
Definition countOnlyFile : option json :=
  Some (JObject [("version", JString "1.0"); ("contact_count", JNumber 7)]).

Definition countOnlyDisk : FileSystem (option json) :=
  mkFileSystem {[ "backup.json" := countOnlyFile ]} ∅.

Definition workGroup : ContactGroup :=
  mkContactGroup "contactGroups/2d9e" "Work" "USER_CONTACT_GROUP".

(** A directory with two pages of contacts and two pages of categories.  It
    counts the requests it serves, accepts every batch, and refuses to
    delete the category [contactGroups/6a1b]. *)
Definition sampleService : Service nat :=
  {| ConnectionsList := fun pageToken w =>
       (if String.eqb pageToken ""
        then Ok (mkListConnectionsResponse [alice] "page-2" 2)
        else if String.eqb pageToken "page-2"
        then Ok (mkListConnectionsResponse [bob] "" 0)
        else Err (External "people" "invalid page token"), S w);
     ContactGroupsList := fun pageToken w =>
       (if String.eqb pageToken ""
        then Ok (mkListContactGroupsResponse [myContactsGroup; friendsGroup]
                   "groups-2")
        else if String.eqb pageToken "groups-2"
        then Ok (mkListContactGroupsResponse [workGroup] "")
        else Err (External "people" "invalid page token"), S w);
     BatchDeleteContacts := fun _ w => (None, S w);
     ContactGroupsDelete := fun resourceName w =>
       (if String.eqb resourceName "contactGroups/6a1b"
        then Some (External "people" "backend error") else None, S w);
     ContactGroupsCreate := fun name w =>
       (Ok (mkContactGroup ("contactGroups/new-" ++ name) name
              "USER_CONTACT_GROUP"), S w);
     BatchCreateContacts := fun _ w => (None, S w) |}.

(** An archive with the contacts [alice] and [bob] and two categories. *)
Definition contactsBackup : BackupFile :=
  AddContact
    (AddContact
       (AddGroup (AddGroup (NewBackupFile 1767225600) myContactsGroup)
          friendsGroup) alice) bob.

(** A disk with the JSON file of [contactsBackup]. *)
Definition restoreDisk : FileSystem (option json) :=
  mkFileSystem
    {[ "backup.json" := Some (marshalBackup sampleCodec contactsBackup) ]} ∅.

(** A restore of that file against the sample directory, confirmed on the
    terminal. *)
Definition sampleRestore : option (option error * list Event * nat) :=
  runRestore sampleCodec sampleService "backup.json" "credentials.json"
    restoreDisk true false (Ok "Yes
") None None 2 0.

(** The sample directory with contacts that carry an identifier only. *)
Definition plainService : Service nat :=
  {| ConnectionsList := fun pageToken w =>
       (if String.eqb pageToken ""
        then Ok (mkListConnectionsResponse [personWithName "people/c1"]
                   "page-2" 2)
        else if String.eqb pageToken "page-2"
        then Ok (mkListConnectionsResponse [personWithName "people/c2"] "" 0)
        else Err (External "people" "invalid page token"), S w);
     ContactGroupsList := ContactGroupsList sampleService;
     BatchDeleteContacts := BatchDeleteContacts sampleService;
     ContactGroupsDelete := ContactGroupsDelete sampleService;
     ContactGroupsCreate := ContactGroupsCreate sampleService;
     BatchCreateContacts := BatchCreateContacts sampleService |}.

(** * Properties *)

(** ** The sanitiser *)

Lemma fold_left_append_flat_map {A B} (g : B -> list A)
    (step : list A -> B -> list A) (l : list B) (acc : list A) :
  (∀ acc x, step acc x = acc ++ g x) ->
  fold_left step l acc = acc ++ flat_map g l.
Proof.
  intros Hstep. revert acc.
  induction l as [|x l IH]; intros acc; simpl.
  - by rewrite app_nil_r.
  - rewrite IH, Hstep. by rewrite <- app_assoc.
Qed.

Lemma isUserGroupName_spec (name : string) :
  isUserGroupName name =
  HasPrefix name "contactGroups/" && negb (hasSystemPrefix name).
Proof.
  unfold isUserGroupName, hasSystemPrefix, sanitizerSystemPrefixes. simpl.
  destruct (HasPrefix name "contactGroups/"); simpl; [|done].
  repeat match goal with
         | |- context [HasPrefix name ?p] => destruct (HasPrefix name p); simpl
         end; reflexivity.
Qed.

Lemma cleanMembershipStep_spec (groupMap : gmap string string)
    (acc : list Membership) (m : Membership) :
  cleanMembershipStep groupMap acc m = acc ++ sanitizerMembership groupMap m.
Proof.
  unfold cleanMembershipStep, sanitizerMembership, groupOf.
  destruct (ContactGroupMembership (value m)) as [cgm|]; simpl;
    [|by rewrite app_nil_r].
  rewrite isUserGroupName_spec.
  destruct (String.eqb (ContactGroupResourceName cgm) preservedGroup) eqn:Heq.
  - apply String.eqb_eq in Heq. rewrite Heq. reflexivity.
  - unfold preservedGroup in Heq. rewrite Heq.
    destruct (HasPrefix _ "contactGroups/"); simpl; [|by rewrite app_nil_r].
    destruct (hasSystemPrefix _); simpl; [by rewrite app_nil_r|].
    destruct (groupMap !! _); [done | by rewrite app_nil_r].
Qed.

(** The memberships of a sanitised record, as one pass over the input. *)
Lemma cleanContact_memberships (contact : Person)
    (groupMap : gmap string string) :
  Memberships (cleanContactForCreation contact groupMap) =
  flat_map (sanitizerMembership groupMap) (Memberships contact).
Proof.
  unfold cleanContactForCreation, clearFieldMetadata; simpl.
  destruct (Memberships contact) as [|m ms] eqn:Hms; [done|].
  rewrite (fold_left_append_flat_map (sanitizerMembership groupMap));
    [done | apply cleanMembershipStep_spec].
Qed.

Lemma cleared_metadata {A} (l : list (Entry A)) :
  Forall (fun stamp => stamp = None) (map Metadata (map clearMetadata l)).
Proof. induction l; simpl; constructor; done. Qed.

(** The identifier is empty and the groups [clearFieldMetadata] walks over
    carry no stamp. *)
Lemma cleanContact_cleared_groups (contact : Person)
    (groupMap : gmap string string) :
  let out := cleanContactForCreation contact groupMap in
  ResourceName out = "" ∧ Etag out = "" ∧ PersonMetadata out = None ∧
  Forall (fun stamp => stamp = None) (clearedGroupsMetadata out) ∧
  FileAses out = [] ∧ Photos out = [] ∧ CoverPhotos out = [].
Proof.
  simpl. repeat split.
  unfold clearedGroupsMetadata, cleanContactForCreation, clearFieldMetadata;
    simpl.
  repeat (apply Forall_app; split); apply cleared_metadata.
Qed.

Lemma sanitizerMembership_accounted (contact : Person)
    (groupMap : gmap string string) (m0 m : Membership) :
  m0 ∈ Memberships contact ->
  m ∈ sanitizerMembership groupMap m0 ->
  accountedFor contact groupMap m.
Proof.
  intros Hin. unfold sanitizerMembership.
  destruct (groupOf m0) as [name|] eqn:Hname; [|by intros ?%elem_of_nil].
  destruct (String.eqb name preservedGroup) eqn:Heq.
  - apply String.eqb_eq in Heq. subst name.
    intros ->%list_elem_of_singleton. by left.
  - destruct (_ || _); [by intros ?%elem_of_nil|].
    destruct (groupMap !! name) as [new|] eqn:Hnew; [|by intros ?%elem_of_nil].
    intros ->%list_elem_of_singleton. right. by exists m0, name, new.
Qed.

(** Every membership of a sanitised record is accounted for. *)
Lemma cleanContact_memberships_accounted (contact : Person)
    (groupMap : gmap string string) :
  Forall (accountedFor contact groupMap)
    (Memberships (cleanContactForCreation contact groupMap)).
Proof.
  rewrite cleanContact_memberships. apply Forall_forall. intros m Hm.
  apply list_elem_of_In, in_flat_map in Hm. destruct Hm as (m0 & Hm0 & Hm).
  apply list_elem_of_In in Hm0, Hm.
  by eapply sanitizerMembership_accounted.
Qed.

(** The stamps that survive sanitising are those of the copied memberships
    of the preserved group. *)
Lemma cleanContact_surviving_metadata (contact : Person)
    (groupMap : gmap string string) (stamp : FieldMetadata) :
  Some stamp ∈ fieldMetadata (cleanContactForCreation contact groupMap) ↔
  ∃ m, m ∈ Memberships contact ∧ groupOf m = Some preservedGroup ∧
       Metadata m = Some stamp.
Proof.
  destruct (cleanContact_cleared_groups contact groupMap)
    as (_ & _ & _ & Hclear & HF & HP & HC).
  unfold fieldMetadata. rewrite HF, HP, HC, cleanContact_memberships.
  cbn [map]. rewrite !app_nil_r, elem_of_app. split.
  - intros [Hin | Hin].
    + rewrite Forall_forall in Hclear. by apply Hclear in Hin.
    + apply list_elem_of_fmap in Hin as (m & Hstamp & Hm).
      apply list_elem_of_In, in_flat_map in Hm as (m0 & Hm0 & Hm).
      apply list_elem_of_In in Hm0, Hm.
      unfold sanitizerMembership in Hm.
      destruct (groupOf m0) as [name|] eqn:Hname; [|by apply elem_of_nil in Hm].
      destruct (String.eqb name preservedGroup) eqn:Heq.
      * apply String.eqb_eq in Heq. subst name.
        apply list_elem_of_singleton in Hm. subst m. by exists m0.
      * destruct (_ || _); [by apply elem_of_nil in Hm|].
        destruct (groupMap !! name);
          [apply list_elem_of_singleton in Hm; by subst m
          | by apply elem_of_nil in Hm].
  - intros (m & Hm & Hname & Hstamp). right.
    apply list_elem_of_fmap. exists m. split; [done|].
    apply list_elem_of_In, in_flat_map. exists m.
    split; [by apply list_elem_of_In|]. apply list_elem_of_In.
    unfold sanitizerMembership. rewrite Hname.
    rewrite String.eqb_refl. apply list_elem_of_singleton. done.
Qed.

Lemma isSystemGroup_cases (name : string) :
  isSystemGroup name = true ->
  name = "contactGroups/myContacts" ∨ name = "contactGroups/starred" ∨
  name = "contactGroups/chatBuddies" ∨ name = "contactGroups/all" ∨
  name = "contactGroups/friends" ∨ name = "contactGroups/family" ∨
  name = "contactGroups/coworkers" ∨ name = "contactGroups/blocked".
Proof.
  unfold isSystemGroup, systemGroups. simpl.
  rewrite !orb_true_iff, !String.eqb_eq. intuition discriminate.
Qed.

(** Where the rule of the sanitiser and the rule of the specification give
    the same result: on names without a mapping, on names the sanitiser
    takes for user groups and on the well-known names, [blocked] apart. *)
Lemma sanitizerMembership_agrees (groupMap : gmap string string)
    (m : Membership) (name : string) :
  groupOf m = Some name ->
  groupMap !! name = None ∨
  (name ≠ "contactGroups/blocked" ∧
   (isUserGroupName name = true ∨ isSystemGroup name = true)) ->
  sanitizerMembership groupMap m = specMembership groupMap m.
Proof.
  intros Hname Hcases. unfold sanitizerMembership, specMembership.
  rewrite Hname. destruct (String.eqb name preservedGroup) eqn:Heq; [done|].
  destruct (isSystemGroup name) eqn:Hsys.
  - destruct Hcases as [Hnone | [Hnb Hcases]].
    + rewrite Hnone. by destruct (_ || _).
    + apply isSystemGroup_cases in Hsys.
      destruct Hsys as [->|[->|[->|[->|[->|[->|[->| ->]]]]]]]; done.
  - destruct Hcases as [Hnone | [Hnb [Huser | Hsys']]].
    + rewrite Hnone. by destruct (_ || _).
    + rewrite isUserGroupName_spec in Huser.
      apply andb_true_iff in Huser as [-> Hno].
      apply negb_true_iff in Hno. by rewrite Hno.
    + congruence.
Qed.

(** C1 (the code departs from the claim): sanitising the contact [alice],
    whose membership of the preserved group [contactGroups/myContacts]
    carries a service stamp, yields a record with an empty identifier whose
    preserved membership still carries that stamp: the membership is
    appended as it is and [clearFieldMetadata] has no loop over the
    memberships, so the output is not free of metadata. *)
Theorem cleanContact_keeps_membership_stamp :
  let out := cleanContactForCreation alice sampleGroupMap in
  ResourceName out = "" ∧
  Memberships out =
    [ membershipOf "contactGroups/myContacts" (Some contactSource);
      remappedMembership "contactGroups/77c0" ] ∧
  Some contactSource ∈ fieldMetadata out ∧
  ¬ noFieldMetadata out ∧
  ¬ sanitized alice sampleGroupMap.
Proof.
  assert (Hm : Memberships (cleanContactForCreation alice sampleGroupMap) =
    [ membershipOf "contactGroups/myContacts" (Some contactSource);
      remappedMembership "contactGroups/77c0" ]) by (vm_compute; reflexivity).
  assert (Hin : Some contactSource ∈
    fieldMetadata (cleanContactForCreation alice sampleGroupMap)).
  { apply cleanContact_surviving_metadata.
    exists (membershipOf "contactGroups/myContacts" (Some contactSource)).
    split; [|done]. apply list_elem_of_In. simpl. by left. }
  assert (Hno : ¬ noFieldMetadata (cleanContactForCreation alice sampleGroupMap)).
  { intros Hall. unfold noFieldMetadata in Hall. rewrite Forall_forall in Hall.
    by apply Hall in Hin. }
  simpl. repeat split; try done.
  intros (_ & Hall & _). by apply Hno.
Qed.

(** C2 (the code departs from the claim): the table maps the user-defined
    group [contactGroups/family2], which is none of the well-known system
    groups ([isSystemGroup] matches them exactly), so the rule of the claim
    rewrites the reference of [bob] to the new identifier; the sanitiser
    drops it, because it tests the system names as prefixes and the name
    starts with [contactGroups/family].  The sanitiser therefore does not
    follow the case analysis of the claim. *)
Theorem sanitizer_drops_mapped_user_group :
  isSystemGroup "contactGroups/family2" = false ∧
  sampleGroupMap !! "contactGroups/family2" = Some "contactGroups/77c1" ∧
  flat_map (specMembership sampleGroupMap) (Memberships bob) =
    [remappedMembership "contactGroups/77c1"] ∧
  Memberships (cleanContactForCreation bob sampleGroupMap) = [] ∧
  ¬ (∀ contact groupMap,
       Memberships (cleanContactForCreation contact groupMap) =
       flat_map (specMembership groupMap) (Memberships contact)).
Proof.
  assert (H1 : flat_map (specMembership sampleGroupMap) (Memberships bob) =
    [remappedMembership "contactGroups/77c1"]) by (vm_compute; reflexivity).
  assert (H2 : Memberships (cleanContactForCreation bob sampleGroupMap) = [])
    by (vm_compute; reflexivity).
  repeat split; try done.
  intros Hclaim. specialize (Hclaim bob sampleGroupMap).
  rewrite H1, H2 in Hclaim. discriminate.
Qed.

(** What the sanitiser does as it is written: the memberships of a
    sanitised record are obtained from
    those of the input, in order, by this case analysis: a membership
    without a contact-group reference is dropped; a reference equal to
    [contactGroups/myContacts] is copied verbatim; a reference that does not
    start with [contactGroups/] or that starts with one of the seven names
    the sanitiser lists is dropped, whatever the table holds; any other
    reference is rewritten through the table when it has a mapping and
    dropped when it has none. *)
Lemma sanitizer_membership_rule (contact : Person)
    (groupMap : gmap string string) :
  Memberships (cleanContactForCreation contact groupMap) =
  flat_map (fun m =>
    match groupOf m with
    | None => []
    | Some name =>
        if String.eqb name "contactGroups/myContacts" then [m]
        else if negb (HasPrefix name "contactGroups/") ||
                existsb (HasPrefix name)
                  [ "contactGroups/myContacts"; "contactGroups/starred";
                    "contactGroups/chatBuddies"; "contactGroups/all";
                    "contactGroups/friends"; "contactGroups/family";
                    "contactGroups/coworkers" ]
        then []
        else match groupMap !! name with
             | Some new => [remappedMembership new]
             | None => []
             end
    end) (Memberships contact).
Proof. apply cleanContact_memberships. Qed.

(** ** The CSV export *)

Lemma length_forAppend (k lo : nat) (n : Z) (body : nat -> list string)
    (acc : list string) :
  (∀ i, length (body i) = k) ->
  length (forAppend lo n body acc) = (length acc + k * Z.to_nat n)%nat.
Proof.
  intros Hbody. unfold forAppend.
  generalize (Z.to_nat n) as m. intros m. revert lo acc.
  induction m as [|m IH]; intros lo acc; simpl; [lia|].
  rewrite IH, length_app, Hbody. lia.
Qed.

Lemma length_buildCSVHeaders (counts : csvFieldCounts) :
  length (buildCSVHeaders counts) = headerWidth counts.
Proof.
  unfold buildCSVHeaders, headerWidth.
  rewrite length_app.
  do 4 (rewrite (length_forAppend 2) by (intros i; reflexivity)).
  rewrite (length_forAppend 8) by (intros i; reflexivity).
  do 2 (rewrite (length_forAppend 2) by (intros i; reflexivity)).
  simpl. lia.
Qed.

Lemma length_contactToCSVRow (contact : Person) (counts : csvFieldCounts)
    (groupNameMap : gmap string string) :
  length (contactToCSVRow contact counts groupNameMap) = headerWidth counts.
Proof.
  unfold contactToCSVRow, headerWidth.
  destruct (Names contact) as [|name ?];
    destruct (Organizations contact) as [|org ?];
    rewrite !length_app;
    (erewrite (length_forAppend 2);
       [|intros i; by destruct (UserDefined contact !! i)]);
    (erewrite (length_forAppend 2);
       [|intros i; by destruct (Urls contact !! i)]);
    (erewrite (length_forAppend 2);
       [|intros i; by destruct (Relations contact !! i)]);
    (erewrite (length_forAppend 2);
       [|intros i; by destruct (Events contact !! i)]);
    (erewrite (length_forAppend 8);
       [|intros i; by destruct (Addresses contact !! i)]);
    (erewrite (length_forAppend 2);
       [|intros i; by destruct (PhoneNumbers contact !! i)]);
    (erewrite (length_forAppend 2);
       [|intros i; by destruct (EmailAddresses contact !! i)]);
    simpl; lia.
Qed.

Lemma countMaxStep_max (counts : csvFieldCounts) (contact : Person) :
  countMaxStep counts contact =
  mkCounts (Z.max (Emails counts) (len (EmailAddresses contact)))
    (Z.max (Phones counts) (len (PhoneNumbers contact)))
    (Z.max (AddressesN counts) (len (Addresses contact)))
    (Z.max (EventsN counts) (len (Events contact)))
    (Z.max (RelationsN counts) (len (Relations contact)))
    (Z.max (Websites counts) (len (Urls contact)))
    (Z.max (CustomFields counts) (len (UserDefined contact))).
Proof.
  unfold countMaxStep. f_equal;
    match goal with
    | |- (if (?a >? ?b)%Z then _ else _) = _ =>
        destruct (Z.gtb_spec a b); lia
    end.
Qed.

Lemma maxOccurrence_nonneg {A} (group : Person -> list A)
    (contacts : list Person) :
  (0 <= maxOccurrence group contacts)%Z.
Proof. induction contacts; unfold maxOccurrence in *; simpl; lia. Qed.

Lemma fold_countMaxStep (contacts : list Person) (counts : csvFieldCounts) :
  (0 <= Emails counts ∧ 0 <= Phones counts ∧ 0 <= AddressesN counts ∧
   0 <= EventsN counts ∧ 0 <= RelationsN counts ∧ 0 <= Websites counts ∧
   0 <= CustomFields counts)%Z ->
  fold_left countMaxStep contacts counts =
  mkCounts (Z.max (Emails counts) (maxOccurrence EmailAddresses contacts))
    (Z.max (Phones counts) (maxOccurrence PhoneNumbers contacts))
    (Z.max (AddressesN counts) (maxOccurrence Addresses contacts))
    (Z.max (EventsN counts) (maxOccurrence Events contacts))
    (Z.max (RelationsN counts) (maxOccurrence Relations contacts))
    (Z.max (Websites counts) (maxOccurrence Urls contacts))
    (Z.max (CustomFields counts) (maxOccurrence UserDefined contacts)).
Proof.
  revert counts. induction contacts as [|c cs IH]; intros counts Hpos.
  - destruct counts; unfold maxOccurrence; simpl in *. f_equal; lia.
  - cbn [fold_left]. rewrite IH, countMaxStep_max.
    + cbn [Emails Phones AddressesN EventsN RelationsN Websites CustomFields].
      unfold maxOccurrence. cbn [map fold_right]. f_equal; lia.
    + rewrite countMaxStep_max. simpl. unfold len. lia.
Qed.

Lemma countMaxFields_max (contacts : list Person) :
  countMaxFields contacts =
  mkCounts (maxOccurrence EmailAddresses contacts)
    (maxOccurrence PhoneNumbers contacts) (maxOccurrence Addresses contacts)
    (maxOccurrence Events contacts) (maxOccurrence Relations contacts)
    (maxOccurrence Urls contacts) (maxOccurrence UserDefined contacts).
Proof.
  unfold countMaxFields. rewrite fold_countMaxStep by (simpl; lia). simpl.
  f_equal; apply Z.max_r, maxOccurrence_nonneg.
Qed.

Lemma csvCounts_max (contacts : list Person) :
  csvCounts contacts =
  mkCounts (Z.max 1 (maxOccurrence EmailAddresses contacts))
    (Z.max 1 (maxOccurrence PhoneNumbers contacts))
    (maxOccurrence Addresses contacts) (maxOccurrence Events contacts)
    (maxOccurrence Relations contacts) (maxOccurrence Urls contacts)
    (maxOccurrence UserDefined contacts).
Proof.
  unfold csvCounts. rewrite countMaxFields_max. simpl.
  pose proof (maxOccurrence_nonneg EmailAddresses contacts).
  pose proof (maxOccurrence_nonneg PhoneNumbers contacts).
  destruct (Z.eqb_spec (maxOccurrence EmailAddresses contacts) 0) as [He|He];
    simpl;
    destruct (Z.eqb_spec (maxOccurrence PhoneNumbers contacts) 0) as [Hp|Hp];
    simpl; f_equal; lia.
Qed.

Lemma csvRecords_rows (b : BackupFile) :
  csvRecords b =
  buildCSVHeaders (csvCounts (Contacts b)) ::
  map (fun contact =>
         contactToCSVRow contact (csvCounts (Contacts b))
           (csvGroupNameMap (Groups b))) (Contacts b).
Proof.
  unfold csvRecords.
  rewrite (fold_left_append_flat_map (fun contact =>
    [contactToCSVRow contact (csvCounts (Contacts b))
       (csvGroupNameMap (Groups b))])) by done.
  simpl. apply f_equal. generalize (csvCounts (Contacts b)) as counts.
  intros counts. induction (Contacts b); simpl; congruence.
Qed.

(** C9: the header is a function of the count vector, and its column count
    is the closed form [14 + 2E + 2P + 8A + 2Ev + 2R + 2W + 2C + 2]; in the
    header [SaveToCSV] writes (the first record of the file), each count is
    the largest number of entries of its group over the record set, and at
    least one for e-mails and phones. *)
Theorem header_width_closed_form :
  (∀ counts : csvFieldCounts,
     length (buildCSVHeaders counts) =
     (14 + 2 * Z.to_nat (Emails counts) + 2 * Z.to_nat (Phones counts) +
      8 * Z.to_nat (AddressesN counts) + 2 * Z.to_nat (EventsN counts) +
      2 * Z.to_nat (RelationsN counts) + 2 * Z.to_nat (Websites counts) +
      2 * Z.to_nat (CustomFields counts) + 2)%nat) ∧
  (∀ b : BackupFile,
     ∃ rows, csvRecords b = buildCSVHeaders (csvCounts (Contacts b)) :: rows ∧
     len (buildCSVHeaders (csvCounts (Contacts b))) =
     (14 + 2 * Z.max 1 (maxOccurrence EmailAddresses (Contacts b)) +
      2 * Z.max 1 (maxOccurrence PhoneNumbers (Contacts b)) +
      8 * maxOccurrence Addresses (Contacts b) +
      2 * maxOccurrence Events (Contacts b) +
      2 * maxOccurrence Relations (Contacts b) +
      2 * maxOccurrence Urls (Contacts b) +
      2 * maxOccurrence UserDefined (Contacts b) + 2)%Z).
Proof.
  split.
  - intros counts. apply length_buildCSVHeaders.
  - intros b. eexists. split; [apply csvRecords_rows|].
    unfold len. rewrite length_buildCSVHeaders, csvCounts_max.
    unfold headerWidth. simpl.
    pose proof (maxOccurrence_nonneg EmailAddresses (Contacts b)).
    pose proof (maxOccurrence_nonneg PhoneNumbers (Contacts b)).
    pose proof (maxOccurrence_nonneg Addresses (Contacts b)).
    pose proof (maxOccurrence_nonneg Events (Contacts b)).
    pose proof (maxOccurrence_nonneg Relations (Contacts b)).
    pose proof (maxOccurrence_nonneg Urls (Contacts b)).
    pose proof (maxOccurrence_nonneg UserDefined (Contacts b)).
    lia.
Qed.

(** C10: for every count vector and every contact the row of
    [contactToCSVRow] has as many cells as the header of [buildCSVHeaders]
    for the same vector, and every record [SaveToCSV] writes has the width
    of the header it wrote first. *)
Theorem csv_rows_match_header :
  (∀ (contact : Person) (counts : csvFieldCounts)
     (groupNameMap : gmap string string),
     length (contactToCSVRow contact counts groupNameMap) =
     length (buildCSVHeaders counts)) ∧
  (∀ b : BackupFile,
     ∃ header rows, csvRecords b = header :: rows ∧
       length rows = length (Contacts b) ∧
       Forall (fun row => length row = length header) rows).
Proof.
  split.
  - intros. by rewrite length_contactToCSVRow, length_buildCSVHeaders.
  - intros b. do 2 eexists. split; [apply csvRecords_rows|].
    split; [by rewrite length_map|].
    apply Forall_forall. intros row Hrow.
    apply list_elem_of_In, in_map_iff in Hrow as (c & <- & _).
    by rewrite length_contactToCSVRow, length_buildCSVHeaders.
Qed.

(** ** The backup file *)

Lemma mapM_decode_encode {A} (enc : A -> json) (dec : json -> option A)
    (l : list A) :
  Forall (fun x => dec (enc x) = Some x) l ->
  mapM dec (map enc l) = Some l.
Proof.
  induction 1 as [|x l Hx _ IH]; [done|].
  simpl. rewrite Hx. simpl. rewrite IH. done.
Qed.

Lemma decodeTime_not_null (C : Codec) (j : json) (old : Z) :
  j ≠ JNull -> decodeTime C j old = timeOfJSON C j.
Proof. by destruct j. Qed.

(** Decoding the JSON value of a representable archive gives it back. *)
Lemma decode_marshal (C : Codec) (b : BackupFile) :
  representable C b -> decodeBackup C (marshalBackup C b) = Some b.
Proof.
  intros (_ & Hnull & Htime & Hpersons & Hgroups & Hcc & Hgc).
  unfold decodeBackup, marshalBackup.
  cbn [decodeMembers decodeMember zeroBackup].
  repeat match goal with
         | |- context [keyMatches ?k ?t] =>
             let v := eval vm_compute in (keyMatches k t) in
             change (keyMatches k t) with v; cbn iota
         end.
  cbn [decodeString decodeInt decodeSlice mbind option_bind
       Version CreatedAt ContactCount GroupCount Contacts Groups].
  rewrite decodeTime_not_null, Htime by done.
  cbn [mbind option_bind CreatedAt]. rewrite Hcc.
  cbn [mbind option_bind ContactCount]. rewrite Hgc.
  cbn [mbind option_bind GroupCount].
  rewrite (mapM_decode_encode _ _ _ Hpersons).
  cbn [mbind option_bind Contacts].
  rewrite (mapM_decode_encode _ _ _ Hgroups).
  cbn [mbind option_bind]. by destruct b.
Qed.

Lemma read_after_write {B} (path : string) (data : B) (fs fs' : FileSystem B) :
  WriteFile path data fs = (None, fs') -> ReadFile path fs' = Ok data.
Proof.
  unfold WriteFile, ReadFile. case_decide; [done|].
  intros [= <-]. simpl. by rewrite lookup_insert_eq.
Qed.

Lemma save_then_load (C : Codec) (b : BackupFile) (path : string)
    (fs fs' : FileSystem (Bytes C)) :
  wellFormed C b ->
  SaveToFile C b path fs = (None, fs') ->
  LoadBackupFile C path fs' = Ok b.
Proof.
  intros [Hversion Hrep] Hsave. unfold SaveToFile in Hsave.
  destruct (WriteFile path _ fs) as [[err|] fs1] eqn:Hwrite; [done|].
  injection Hsave as <-. apply read_after_write in Hwrite.
  unfold LoadBackupFile, unmarshalBackup. rewrite Hwrite.
  destruct Hrep as [Hparse Hrest]. rewrite Hparse.
  rewrite decode_marshal by (split; done).
  destruct (String.eqb_spec (Version b) ""); done.
Qed.

Lemma save_succeeds (C : Codec) (b : BackupFile) (path : string)
    (fs : FileSystem (Bytes C)) :
  path ∉ denied fs -> ∃ fs', SaveToFile C b path fs = (None, fs').
Proof.
  intros Hpath. unfold SaveToFile, WriteFile. case_decide; [done|].
  by eexists.
Qed.

Lemma sampleBackup_wellFormed : wellFormed sampleCodec sampleBackup.
Proof.
  split; [discriminate|].
  repeat split; try done; repeat constructor.
Qed.

Lemma load_cases (C : Codec) (path : string) (fs : FileSystem (Bytes C)) :
  LoadBackupFile C path fs =
  match ReadFile path fs with
  | Err e0 => Err (Wrap "failed to read backup file" e0)
  | Ok data =>
      match unmarshalBackup C data with
      | Err e0 => Err (Wrap "failed to parse backup file" e0)
      | Ok backup =>
          if decide (Version backup = "")
          then Err (New "invalid backup file: missing version")
          else Ok backup
      end
  end.
Proof.
  unfold LoadBackupFile. destruct (ReadFile path fs); [|done].
  destruct (unmarshalBackup C a) as [backup|]; [|done].
  destruct (String.eqb_spec (Version backup) ""); by case_decide.
Qed.

(** Without a version tag the archive that was saved is refused at load. *)
Lemma load_refuses_saved_without_version (C : Codec) (b : BackupFile)
    (path : string) (fs fs' : FileSystem (Bytes C)) :
  representable C b -> Version b = "" ->
  SaveToFile C b path fs = (None, fs') ->
  LoadBackupFile C path fs' = Err (New "invalid backup file: missing version").
Proof.
  intros Hrep Hversion Hsave. unfold SaveToFile in Hsave.
  destruct (WriteFile path _ fs) as [[err|] fs1] eqn:Hwrite; [done|].
  injection Hsave as <-. apply read_after_write in Hwrite.
  rewrite load_cases, Hwrite. unfold unmarshalBackup.
  destruct Hrep as [Hparse Hrest]. rewrite Hparse.
  rewrite decode_marshal by (split; done). by case_decide.
Qed.

(** C5: for a well-formed archive (one with a version tag that the JSON
    libraries write and read back faithfully), loading the file that
    [SaveToFile] wrote yields the archive, field for field; and the save
    succeeds whenever the path can be written. *)
Theorem load_save_roundtrip (C : Codec) (b : BackupFile) (path : string)
    (fs : FileSystem (Bytes C)) :
  wellFormed C b ->
  (∀ fs', SaveToFile C b path fs = (None, fs') ->
          LoadBackupFile C path fs' = Ok b) ∧
  (path ∉ denied fs -> ∃ fs', SaveToFile C b path fs = (None, fs')).
Proof.
  intros Hwf. split.
  - intros fs' Hsave. by eapply save_then_load.
  - apply save_succeeds.
Qed.

(** The sample archive, saved on an empty disk and loaded again. *)
Lemma load_save_roundtrip_witness :
  wellFormed sampleCodec sampleBackup ∧
  LoadBackupFile sampleCodec "backup.json"
    (snd (SaveToFile sampleCodec sampleBackup "backup.json" emptyDisk)) =
  Ok sampleBackup.
Proof.
  split; [exact sampleBackup_wellFormed|].
  apply (proj1 (load_save_roundtrip sampleCodec sampleBackup "backup.json"
                  emptyDisk sampleBackup_wellFormed)).
  reflexivity.
Defined.

(** C6: [LoadBackupFile] fails exactly when the file cannot be read (a read
    error), when its content does not deserialise (a parse error), or when
    the deserialised archive has an empty version (the missing-version
    error), with these three errors and no other; an archive that is
    returned has a non-empty version. *)
Theorem load_error_cases (C : Codec) (path : string)
    (fs : FileSystem (Bytes C)) :
  (∀ e, LoadBackupFile C path fs = Err e ↔
     (∃ e0, ReadFile path fs = Err e0 ∧
            e = Wrap "failed to read backup file" e0) ∨
     (∃ data e0, ReadFile path fs = Ok data ∧
                 unmarshalBackup C data = Err e0 ∧
                 e = Wrap "failed to parse backup file" e0) ∨
     (∃ data backup, ReadFile path fs = Ok data ∧
                     unmarshalBackup C data = Ok backup ∧
                     Version backup = "" ∧
                     e = New "invalid backup file: missing version")) ∧
  (∀ b, LoadBackupFile C path fs = Ok b ↔
     ∃ data, ReadFile path fs = Ok data ∧ unmarshalBackup C data = Ok b ∧
             Version b ≠ "").
Proof.
  rewrite load_cases.
  destruct (ReadFile path fs) as [data|e0] eqn:Hread.
  - destruct (unmarshalBackup C data) as [backup|e0] eqn:Hdecode.
    + case_decide as Hv; split.
      * intros e. split.
        -- intros [= <-]. right. right. by exists data, backup.
        -- intros [(e0 & ? & _) | [(d & e0 & [= <-] & ? & _) |
                   (d & b' & [= <-] & Hb & _ & ->)]]; congruence.
      * intros b. split; [done|].
        intros (d & [= <-] & Hb & Hne). congruence.
      * intros e. split; [done|].
        intros [(e0 & ? & _) | [(d & e0 & [= <-] & ? & _) |
                (d & b' & [= <-] & Hb & Hv' & _)]]; congruence.
      * intros b. split.
        -- intros [= <-]. by exists data.
        -- intros (d & [= <-] & Hb & Hne). congruence.
    + split.
      * intros e. split.
        -- intros [= <-]. right. left. by exists data, e0.
        -- intros [(e1 & ? & _) | [(d & e1 & [= <-] & He & ->) |
                   (d & b' & [= <-] & Hb & _)]]; congruence.
      * intros b. split; [done|].
        intros (d & [= <-] & ? & _). congruence.
  - split.
    + intros e. split.
      * intros [= <-]. left. by exists e0.
      * intros [(e1 & He & ->) | [(d & e1 & Hd & _) | (d & b' & Hd & _)]];
          congruence.
    + intros b. split; [done|]. intros (d & ? & _). congruence.
Qed.

(** Three files and what the loader makes of them. *)
Example load_missing_file :
  LoadBackupFile sampleCodec "backup.json" emptyDisk =
  Err (Wrap "failed to read backup file"
         (External "os" "no such file or directory")).
Proof. reflexivity. Qed.

Example load_version_of_wrong_type :
  LoadBackupFile sampleCodec "backup.json"
    (mkFileSystem {[ "backup.json" := Some (JObject [("version", JNumber 1)]) ]} ∅) =
  Err (Wrap "failed to parse backup file"
         (External "json" "cannot unmarshal into BackupFile")).
Proof. reflexivity. Qed.

Example load_without_version :
  LoadBackupFile sampleCodec "backup.json"
    (mkFileSystem {[ "backup.json" := Some (JObject [("contacts", JArray [])]) ]} ∅) =
  Err (New "invalid backup file: missing version").
Proof. reflexivity. Qed.

Lemma new_backup_consistent (now : Z) : countsConsistent (NewBackupFile now).
Proof. by split. Qed.

Lemma add_contact_consistent (b : BackupFile) (contact : Person) :
  countsConsistent b -> countsConsistent (AddContact b contact).
Proof. intros [_ Hg]. by split. Qed.

Lemma add_group_consistent (b : BackupFile) (group : ContactGroup) :
  countsConsistent b -> countsConsistent (AddGroup b group).
Proof. intros [Hc _]. by split. Qed.

(** C7, the claim as stated fails: a file that holds a version tag and
    [contact_count: 7] and no contact is loaded without error, and the
    archive obtained has count 7 for an empty record list. *)
Lemma load_accepts_inconsistent_counts :
  LoadBackupFile sampleCodec "backup.json" countOnlyDisk =
    Ok (mkBackupFile "1.0" 0 7 0 [] []) ∧
  ¬ countsConsistent (mkBackupFile "1.0" 0 7 0 [] []).
Proof.
  split; [reflexivity|]. intros [Hc _]. discriminate.
Qed.

(** C7 (amended): the counts equal the lengths of the lists after
    [NewBackupFile]; [AddContact] and [AddGroup] preserve that; and it holds
    for the archive loaded from a file that [SaveToFile] wrote from a
    well-formed archive for which it holds.  ([LoadBackupFile] itself does
    not compare the counts with the lists.) *)
Theorem counts_invariant :
  (∀ now, countsConsistent (NewBackupFile now)) ∧
  (∀ b contact, countsConsistent b -> countsConsistent (AddContact b contact)) ∧
  (∀ b group, countsConsistent b -> countsConsistent (AddGroup b group)) ∧
  (∀ (C : Codec) b path (fs fs' : FileSystem (Bytes C)) loaded,
     wellFormed C b -> countsConsistent b ->
     SaveToFile C b path fs = (None, fs') ->
     LoadBackupFile C path fs' = Ok loaded ->
     countsConsistent loaded).
Proof.
  split; [apply new_backup_consistent|].
  split; [apply add_contact_consistent|].
  split; [apply add_group_consistent|].
  intros C b path fs fs' loaded Hwf Hcons Hsave Hload.
  rewrite (save_then_load C b path fs fs' Hwf Hsave) in Hload.
  by injection Hload as <-.
Qed.

(** The sample archive, built by [AddGroup] and [AddContact], and two more
    additions. *)
Lemma counts_invariant_witness :
  countsConsistent sampleBackup ∧
  countsConsistent
    (AddGroup (AddContact sampleBackup (personWithName "people/c2"))
       friendsGroup).
Proof.
  pose proof counts_invariant as (Hnew & Hcontact & Hgroup & _).
  assert (Hs : countsConsistent sampleBackup).
  { unfold sampleBackup.
    apply Hcontact, Hgroup, Hgroup, Hnew. }
  split; [exact Hs|]. apply Hgroup, Hcontact, Hs.
Defined.

(** ** The People API client: listing *)

Section ListingProperties.
Context {World : Type} (svc : Service World).

Lemma report_run (progressFn : bool) (current total : Z) (w : World) :
    report progressFn current total w =
    Some (tt, if progressFn then [Progress current total] else [], w).
  Proof. by destruct progressFn. Qed.

Lemma listContactsLoop_pages (pageToken : string) (w : World)
      (pages : list (list Person)) (w' : World) :
    connectionPages svc pageToken w pages w' ->
    ∀ fuel progressFn allContacts totalCount,
      length pages <= fuel ->
      ∃ events,
        listContactsLoop svc fuel progressFn allContacts pageToken totalCount w
        = Some (Ok (allContacts ++ concat pages), events, w') ∧
        Forall listingEvent events ∧
        length (connectionRequests events) = length pages.
  Proof.
    induction 1 as [tok w items total w' Hcall
                   |tok w items next total w1 pages w' Hcall Hnext _ IH];
      intros fuel progressFn allContacts totalCount Hfuel;
      (destruct fuel as [|fuel]; [simpl in Hfuel; lia|]).
    - simpl. unfold bind, request. rewrite Hcall, report_run. simpl.
      rewrite !app_nil_r. eexists. split; [reflexivity|].
      split; [|by destruct progressFn].
      destruct progressFn; repeat constructor.
    - simpl in Hfuel.
      set (total' := if (totalCount =? 0)%Z && (total >? 0)%Z
                     then total else totalCount).
      destruct (IH fuel progressFn (allContacts ++ items) total'
                  ltac:(lia)) as (events & Hrun & Hall & Hcount).
      simpl. unfold bind, request. rewrite Hcall, report_run. simpl.
      destruct (String.eqb_spec next ""); [done|].
      unfold emit. fold total'. rewrite Hrun.
      rewrite <- app_assoc. eexists. split; [reflexivity|]. split.
      + constructor; [done|]. apply Forall_app. split.
        * destruct progressFn; repeat constructor.
        * by constructor.
      + destruct progressFn; simpl; by rewrite Hcount.
  Qed.

Lemma listGroupsLoop_pages (pageToken : string) (w : World)
      (pages : list (list ContactGroup)) (w' : World) :
    groupPages svc pageToken w pages w' ->
    ∀ fuel allGroups,
      length pages <= fuel ->
      ∃ events,
        listGroupsLoop svc fuel allGroups pageToken w
        = Some (Ok (allGroups ++ concat pages), events, w') ∧
        Forall listingEvent events ∧
        length (groupRequests events) = length pages.
  Proof.
    induction 1 as [tok w items w' Hcall
                   |tok w items next w1 pages w' Hcall Hnext _ IH];
      intros fuel allGroups Hfuel;
      (destruct fuel as [|fuel]; [simpl in Hfuel; lia|]).
    - simpl. unfold bind, request. rewrite Hcall. simpl.
      rewrite !app_nil_r. eexists. split; [reflexivity|].
      split; [|done]. repeat constructor.
    - simpl in Hfuel.
      destruct (IH fuel (allGroups ++ items) ltac:(lia))
        as (events & Hrun & Hall & Hcount).
      simpl. unfold bind, request. rewrite Hcall. simpl.
      destruct (String.eqb_spec next ""); [done|].
      unfold emit. rewrite Hrun.
      rewrite <- app_assoc. eexists. split; [reflexivity|]. split.
      + constructor; [done|]. by constructor.
      + simpl. by rewrite Hcount.
  Qed.

  (** A page request that fails ends the listing with the wrapped error. *)
Lemma ListContacts_first_page_error (fuel : nat) (progressFn : bool)
      (w w' : World) (err : error) :
    ConnectionsList svc "" w = (Err err, w') ->
    ListContacts svc (S fuel) progressFn w =
    Some (Err (Wrap "failed to list contacts" err),
          [ListConnectionsCall ""], w').
  Proof.
    intros Hcall. unfold ListContacts. simpl. unfold bind, request.
    by rewrite Hcall.
  Qed.
End ListingProperties.

(** C4: when the service answers the successive page requests with pages
    linked by cursors, the last of which has the empty cursor, [ListContacts]
    and [ListGroups] return the concatenation of the pages in order, after
    one request per page (given fuel for that many requests); in particular
    an empty page without cursor ends the loop with an empty result and no
    error. *)
Theorem listing_concatenates_pages :
  (∀ World (svc : Service World) fuel progressFn w pages w',
     connectionPages svc "" w pages w' -> length pages <= fuel ->
     ∃ events,
       ListContacts svc fuel progressFn w = Some (Ok (concat pages), events, w')
       ∧ length (connectionRequests events) = length pages) ∧
  (∀ World (svc : Service World) fuel w pages w',
     groupPages svc "" w pages w' -> length pages <= fuel ->
     ∃ events,
       ListGroups svc fuel w = Some (Ok (concat pages), events, w')
       ∧ length (groupRequests events) = length pages) ∧
  (∀ World (svc : Service World) fuel progressFn w total w',
     ConnectionsList svc "" w =
       (Ok (mkListConnectionsResponse [] "" total), w') ->
     ∃ events, ListContacts svc (S fuel) progressFn w = Some (Ok [], events, w'))
  ∧
  (∀ World (svc : Service World) fuel w w',
     ContactGroupsList svc "" w =
       (Ok (mkListContactGroupsResponse [] ""), w') ->
     ∃ events, ListGroups svc (S fuel) w = Some (Ok [], events, w')).
Proof.
  split; [|split; [|split]].
  - intros World svc fuel progressFn w pages w' Hpages Hfuel.
    destruct (listContactsLoop_pages svc "" w pages w' Hpages fuel progressFn
                [] 0%Z Hfuel) as (events & Hrun & _ & Hcount).
    by exists events.
  - intros World svc fuel w pages w' Hpages Hfuel.
    destruct (listGroupsLoop_pages svc "" w pages w' Hpages fuel [] Hfuel)
      as (events & Hrun & _ & Hcount).
    by exists events.
  - intros World svc fuel progressFn w total w' Hcall.
    destruct (listContactsLoop_pages svc "" w [[]] w'
                (connections_last svc _ _ _ _ _ Hcall) (S fuel) progressFn
                [] 0%Z ltac:(simpl; lia)) as (events & Hrun & _).
    by exists events.
  - intros World svc fuel w w' Hcall.
    destruct (listGroupsLoop_pages svc "" w [[]] w'
                (groups_last svc _ _ _ _ Hcall) (S fuel) [] ltac:(simpl; lia))
      as (events & Hrun & _).
    by exists events.
Qed.

Lemma sampleService_connection_pages :
  connectionPages sampleService "" 0 [[alice]; [bob]] 2.
Proof.
  eapply connections_next; [reflexivity | discriminate |].
  eapply connections_last. reflexivity.
Qed.

Lemma sampleService_group_pages :
  groupPages sampleService "" 0
    [[myContactsGroup; friendsGroup]; [workGroup]] 2.
Proof.
  eapply groups_next; [reflexivity | discriminate |].
  eapply groups_last. reflexivity.
Qed.

(** The two pages of contacts and of categories of the sample directory. *)
Lemma listing_concatenates_pages_witness :
  connectionPages sampleService "" 0 [[alice]; [bob]] 2 ∧
  (∃ events,
     ListContacts sampleService 2 true 0 = Some (Ok [alice; bob], events, 2) ∧
     length (connectionRequests events) = 2) ∧
  (∃ events,
     ListGroups sampleService 2 0 =
       Some (Ok [myContactsGroup; friendsGroup; workGroup], events, 2) ∧
     length (groupRequests events) = 2).
Proof.
  split; [exact sampleService_connection_pages|]. split.
  - apply (proj1 listing_concatenates_pages nat sampleService 2 true 0
             [[alice]; [bob]] 2 sampleService_connection_pages).
    simpl. lia.
  - apply (proj1 (proj2 listing_concatenates_pages) nat sampleService 2 0
             [[myContactsGroup; friendsGroup]; [workGroup]] 2
             sampleService_group_pages).
    simpl. lia.
Defined.

(** ** The People API client: batched mutation *)

Lemma ceilDiv_zero (size : nat) : 0 < size -> ceilDiv 0 size = 0.
Proof. intros Hsize. unfold ceilDiv. apply Nat.div_small. lia. Qed.

Lemma ceilDiv_step (n size : nat) :
  0 < size -> 0 < n -> ceilDiv n size = S (ceilDiv (n - size) size).
Proof.
  intros Hsize Hn. unfold ceilDiv.
  destruct (Nat.le_gt_cases size n) as [Hle|Hlt].
  - replace (n + size - 1) with ((n - size + size - 1) + 1 * size) by lia.
    rewrite Nat.div_add by lia. lia.
  - replace (n - size) with 0 by lia.
    rewrite (Nat.div_small (0 + size - 1)) by lia.
    replace (n + size - 1) with ((n - 1) + 1 * size) by lia.
    rewrite Nat.div_add by lia. rewrite Nat.div_small by lia. done.
Qed.

Lemma collectResourceNames_filter (contacts : list Person) :
  collectResourceNames contacts =
  filter (fun name => name ≠ "") (map ResourceName contacts).
Proof.
  unfold collectResourceNames.
  rewrite (fold_left_append_flat_map (fun contact =>
    if String.eqb (ResourceName contact) "" then []
    else [ResourceName contact])).
  - simpl. induction contacts as [|c cs IH]; [done|]. simpl.
    rewrite filter_cons. destruct (String.eqb_spec (ResourceName c) "");
      case_decide; try done; simpl; by rewrite IH.
  - intros acc c. destruct (String.eqb (ResourceName c) "");
      [by rewrite app_nil_r | done].
Qed.

Lemma collectResourceNames_all (contacts : list Person) :
  Forall (fun contact => ResourceName contact ≠ "") contacts ->
  collectResourceNames contacts = map ResourceName contacts.
Proof.
  intros Hall. rewrite collectResourceNames_filter.
  induction Hall as [|c cs Hc _ IH]; [done|]. simpl.
  rewrite filter_cons. case_decide; [by rewrite IH | done].
Qed.

Lemma listing_no_batches (events : list Event) :
  Forall listingEvent events ->
  deleteBatches events = [] ∧ createBatches events = [].
Proof.
  induction 1 as [|e events He _ [IHd IHc]]; [done|].
  unfold deleteBatches, createBatches in *.
  destruct e; simpl in *; done.
Qed.

Section BatchProperties.
Context {World : Type} (svc : Service World).
Context {A C : Type} (g : A -> C) (sel : Event -> option (list C)).
Context (size : nat) (items : list A).
Context (send : list A -> M World (option error)).
Context (context : string) (progressFn : bool) (total : Z).

Hypothesis size_positive : 0 < size.
Hypothesis sel_sleep : sel Sleep = None.
Hypothesis sel_progress : ∀ c t, sel (Progress c t) = None.
Hypothesis send_accepted :
    ∀ batch w, ∃ e w',
      send batch w = Some (None, [e], w') ∧ sel e = Some (map g batch).

  (** When every batch is accepted the loop sends, from index [i], the
      rest of the list in order, in pieces of at most [size] items. *)
Lemma batchLoop_accepted (steps : nat) :
    ∀ i done w,
      length items - i < steps ->
      ∃ events w',
        batchLoop steps size items send context progressFn total i done w =
        Some (None, events, w') ∧
        concat (omap sel events) = map g (drop i items) ∧
        Forall (fun batch => length batch <= size) (omap sel events) ∧
        length (omap sel events) = ceilDiv (length items - i) size.
  Proof.
    induction steps as [|steps IH]; intros i done w Hsteps; [lia|].
    simpl. destruct (Nat.ltb_spec i (length items)) as [Hlt|Hge].
    - set (end_ := if (length items <? i + size)%nat
                   then length items else (i + size)%nat).
      set (batch := take (end_ - i) (drop i items)).
      destruct (send_accepted batch w) as (e & w1 & Hsend & Hsel).
      destruct (IH (i + size) (done + len batch)%Z w1 ltac:(lia))
        as (events & w' & Hrun & Hconcat & Hsizes & Hcount).
      unfold bind. rewrite Hsend, report_run. unfold emit. rewrite Hrun.
      eexists _, _. split; [reflexivity|].
      assert (Hsplit : batch ++ drop (i + size) items = drop i items).
      { subst batch end_. destruct (Nat.ltb_spec (length items) (i + size)).
        - rewrite take_ge by (rewrite length_drop; lia).
          rewrite (drop_ge items (i + size)) by lia. by rewrite app_nil_r.
        - replace (i + size - i) with size by lia.
          rewrite <- drop_drop. apply take_drop. }
      assert (Hlen : length batch <= size).
      { subst batch end_. rewrite length_take.
        destruct (Nat.ltb_spec (length items) (i + size)); lia. }
      assert (Homap :
        omap sel ([e] ++ (if progressFn then [Progress (done + len batch) total]
                          else []) ++ [Sleep] ++ events) =
        map g batch :: omap sel events).
      { simpl. rewrite Hsel. f_equal.
        destruct progressFn; simpl;
          rewrite ?sel_progress, sel_sleep; done. }
      rewrite Homap. simpl. split; [|split].
      + rewrite Hconcat, <- map_app, Hsplit. done.
      + constructor; [by rewrite length_map | done].
      + rewrite Hcount.
        rewrite (ceilDiv_step (length items - i)) by lia.
        f_equal. f_equal. lia.
    - exists [], w. split; [reflexivity|]. simpl.
      rewrite drop_ge by lia. split; [done|]. split; [constructor|].
      replace (length items - i) with 0 by lia.
      by rewrite ceilDiv_zero.
  Qed.

  (** A refused batch ends the loop with the wrapped error. *)
Lemma batchLoop_refused (steps i : nat) (done : Z) (w w' : World)
      (e : Event) (err : error) :
    i < length items ->
    send (take ((if (length items <? i + size)%nat
                 then length items else (i + size)%nat) - i)
            (drop i items)) w = Some (Some err, [e], w') ->
    batchLoop (S steps) size items send context progressFn total i done w =
    Some (Some (Wrap context err), [e], w').
  Proof.
    intros Hlt Hsend. simpl.
    destruct (Nat.ltb_spec i (length items)); [|lia].
    unfold bind. rewrite Hsend. simpl. done.
  Qed.
End BatchProperties.

(** C3: when the listing succeeds and the service accepts every batch,
    [DeleteAllContacts] sends the [N] non-empty resource names of the listed
    contacts (all of them, when every listed contact has one) in
    [ceil(N/500)] batches of at most 500, in order and each once; when the
    service accepts every batch, [CreateContacts] sends the [N] sanitised
    contacts in [ceil(N/200)] batches of at most 200, in order and each
    once. *)
Theorem batch_partitioning :
  (∀ World (svc : Service World) fuel progressFn w pages w1,
     connectionPages svc "" w pages w1 -> length pages <= fuel ->
     (∀ batch w, fst (BatchDeleteContacts svc batch w) = None) ->
     ∃ events w',
       DeleteAllContacts svc fuel progressFn w = Some (None, events, w') ∧
       let resourceNames := collectResourceNames (concat pages) in
       length (deleteBatches events) =
         ceilDiv (length resourceNames) batchDeleteSize ∧
       Forall (fun batch => length batch <= batchDeleteSize)
         (deleteBatches events) ∧
       concat (deleteBatches events) = resourceNames ∧
       (Forall (fun contact => ResourceName contact ≠ "") (concat pages) ->
        resourceNames = map ResourceName (concat pages))) ∧
  (∀ World (svc : Service World) contacts groupMap progressFn w,
     (∀ batch w, fst (BatchCreateContacts svc batch w) = None) ->
     ∃ events w',
       CreateContacts svc contacts groupMap progressFn w =
         Some (None, events, w') ∧
       length (createBatches events) =
         ceilDiv (length contacts) batchCreateSize ∧
       Forall (fun batch => length batch <= batchCreateSize)
         (createBatches events) ∧
       concat (createBatches events) =
         map (fun contact => cleanContactForCreation contact groupMap)
           contacts).
Proof.
  split.
  - intros World svc fuel progressFn w pages w1 Hpages Hfuel Haccept.
    destruct (listContactsLoop_pages svc "" w pages w1 Hpages fuel false
                [] 0%Z Hfuel) as (events1 & Hlist & Hall & _).
    apply listing_no_batches in Hall as [Hnone _].
    cbn [app] in Hlist.
    unfold DeleteAllContacts, bind, ListContacts. rewrite Hlist.
    destruct (Nat.eqb_spec (length (concat pages)) 0) as [Hzero|Hpos].
    + exists (events1 ++ []), w1. split; [reflexivity|].
      rewrite app_nil_r, Hnone.
      apply length_zero_iff_nil in Hzero. rewrite Hzero. simpl.
      repeat split; try done; by rewrite ceilDiv_zero.
    + set (names := collectResourceNames (concat pages)).
      destruct (batchLoop_accepted (fun name : string => name)
                  (fun e => match e with
                            | BatchDeleteCall b => Some b | _ => None end)
                  batchDeleteSize names
                  (fun batch => request (BatchDeleteCall batch)
                                  (BatchDeleteContacts svc batch))
                  "failed to delete contacts batch" progressFn
                  (len (concat pages))
                  ltac:(unfold batchDeleteSize; lia) eq_refl
                  (fun _ _ => eq_refl)) with (steps := S (length names))
                  (i := 0) (done := 0%Z) (w := w1)
        as (events2 & w' & Hrun & Hconcat & Hsizes & Hcount).
      * intros batch w0. unfold request.
        specialize (Haccept batch w0).
        destruct (BatchDeleteContacts svc batch w0) as [r w0'].
        simpl in Haccept. subst r. eexists _, _. split; [reflexivity|].
        simpl. by rewrite map_id.
      * lia.
      * rewrite Hrun. exists (events1 ++ events2), w'.
        split; [reflexivity|].
        unfold deleteBatches in *. rewrite omap_app, Hnone. simpl.
        rewrite Nat.sub_0_r in Hcount. rewrite map_id in Hconcat.
        repeat split; try done.
        apply collectResourceNames_all.
  - intros World svc contacts groupMap progressFn w Haccept.
    unfold CreateContacts.
    destruct (Nat.eqb_spec (length contacts) 0) as [Hzero|Hpos].
    + exists [], w. split; [reflexivity|].
      apply length_zero_iff_nil in Hzero. rewrite Hzero. simpl.
      repeat split; try done; by rewrite ceilDiv_zero.
    + destruct (batchLoop_accepted
                  (fun contact => cleanContactForCreation contact groupMap)
                  (fun e => match e with
                            | BatchCreateCall b => Some b | _ => None end)
                  batchCreateSize contacts
                  (fun batch =>
                     request
                       (BatchCreateCall
                          (map (fun contact =>
                                  cleanContactForCreation contact groupMap)
                             batch))
                       (BatchCreateContacts svc
                          (map (fun contact =>
                                  cleanContactForCreation contact groupMap)
                             batch)))
                  "failed to create contacts batch" progressFn
                  (len contacts)
                  ltac:(unfold batchCreateSize; lia) eq_refl
                  (fun _ _ => eq_refl)) with (steps := S (length contacts))
                  (i := 0) (done := 0%Z) (w := w)
        as (events & w' & Hrun & Hconcat & Hsizes & Hcount).
      * intros batch w0. unfold request.
        specialize (Haccept
          (map (fun contact => cleanContactForCreation contact groupMap) batch)
          w0).
        destruct (BatchCreateContacts svc _ w0) as [r w0'].
        simpl in Haccept. subst r. eexists _, _. split; reflexivity.
      * lia.
      * exists events, w'. split; [exact Hrun|].
        rewrite Nat.sub_0_r in Hcount. unfold createBatches.
        repeat split; done.
Qed.

(** The sample directory: two contacts deleted in one batch, two created in
    one batch. *)
Lemma batch_partitioning_witness :
  (∃ events w',
     DeleteAllContacts sampleService 2 true 0 = Some (None, events, w') ∧
     length (deleteBatches events) = 1 ∧
     concat (deleteBatches events) = ["people/c1"; "people/c2"]) ∧
  (∃ events w',
     CreateContacts sampleService [alice; bob] sampleGroupMap true 0 =
       Some (None, events, w') ∧
     length (createBatches events) = 1).
Proof.
  split.
  - destruct (proj1 batch_partitioning nat sampleService 2 true 0
                [[alice]; [bob]] 2 sampleService_connection_pages
                ltac:(simpl; lia) (fun _ _ => eq_refl))
      as (events & w' & Hrun & Hcount & _ & Hconcat & _).
    exists events, w'. split; [exact Hrun|]. split; [exact Hcount|].
    exact Hconcat.
  - destruct (proj2 batch_partitioning nat sampleService [alice; bob]
                sampleGroupMap true 0 (fun _ _ => eq_refl))
      as (events & w' & Hrun & Hcount & _).
    exists events, w'. split; [exact Hrun | exact Hcount].
Defined.

(** Four hundred and one contacts go out in batches of 200, 200 and 1. *)
Example create_401_contacts :
  match CreateContacts sampleService (repeat bob 401) sampleGroupMap true 0 with
  | Some (None, events, _) =>
      map length (createBatches events) = [200; 200; 1] ∧
      progressReports events = [(200, 401); (400, 401); (401, 401)]%Z
  | _ => False
  end.
Proof. vm_compute. done. Qed.

(** ** The People API client: deleting the user categories *)

Lemma collect_user_groups (groups : list ContactGroup) :
  fold_left (fun userGroups group =>
    if isUserContactGroup group then userGroups ++ [group] else userGroups)
    groups [] = userGroupsOf groups.
Proof.
  rewrite (fold_left_append_flat_map (fun group =>
    if isUserContactGroup group then [group] else [])).
  - simpl. unfold userGroupsOf, isUserContactGroup.
    induction groups as [|g gs IH]; [done|]. simpl. rewrite filter_cons.
    destruct (String.eqb_spec (GroupType g) "USER_CONTACT_GROUP");
      case_decide; try done; simpl; by rewrite IH.
  - intros acc g. destruct (isUserContactGroup g);
      [done | by rewrite app_nil_r].
Qed.

Lemma GetUserGroups_filter (b : BackupFile) :
  GetUserGroups b = userGroupsOf (Groups b).
Proof. apply collect_user_groups. Qed.

Section DeleteGroupsProperties.
Context {World : Type} (svc : Service World).

  (** One iteration of the deletion loop. *)
Lemma deleteGroupsLoop_cons (group : ContactGroup)
      (rest : list ContactGroup) (progressFn : bool) (totalGroups deleted : Z)
      (w : World) :
    deleteGroupsLoop svc (group :: rest) progressFn totalGroups deleted w =
    let '(answer, w1) :=
      ContactGroupsDelete svc (GroupResourceName group) w in
    let deleted1 :=
      match answer with Some _ => deleted | None => (deleted + 1)%Z end in
    match deleteGroupsLoop svc rest progressFn totalGroups deleted1 w1 with
    | Some (result, events, w') =>
        Some (result,
              ([DeleteGroupCall (GroupResourceName group)] ++
               match answer with
               | Some err => [Warning (GroupName group) err]
               | None => []
               end ++
               (if progressFn then [Progress deleted1 totalGroups] else []) ++
               [Sleep]) ++ events, w')
    | None => None
    end.
  Proof.
    simpl. unfold bind, request.
    destruct (ContactGroupsDelete svc (GroupResourceName group) w)
      as [[err|] w1]; unfold emit, ret; simpl; rewrite report_run;
      destruct (deleteGroupsLoop svc rest progressFn totalGroups _ w1)
        as [[[result events] w']|]; try done;
      destruct progressFn; reflexivity.
  Qed.

Lemma deleteGroupsLoop_run (userGroups : list ContactGroup)
      (progressFn : bool) (totalGroups : Z) :
    ∀ deleted w,
      ∃ events w',
        deleteGroupsLoop svc userGroups progressFn totalGroups deleted w =
        Some ((deleted + acceptedDeletions (deletionAnswers svc userGroups w))%Z,
              events, w') ∧
        deletedGroups events = map GroupResourceName userGroups ∧
        warnings events = refusedDeletions (deletionAnswers svc userGroups w) ∧
        (progressFn = true -> userGroups ≠ [] ->
         last (progressReports events) =
         Some ((deleted + acceptedDeletions (deletionAnswers svc userGroups w))%Z,
               totalGroups)).
  Proof.
    induction userGroups as [|group rest IH]; intros deleted w.
    - exists [], w. unfold acceptedDeletions. simpl.
      rewrite Z.add_0_r. repeat split; done.
    - rewrite deleteGroupsLoop_cons. cbn [deletionAnswers].
      destruct (ContactGroupsDelete svc (GroupResourceName group) w)
        as [answer w1] eqn:Hcall.
      set (deleted1 := match answer with
                       | Some _ => deleted | None => (deleted + 1)%Z end).
      destruct (IH deleted1 w1) as (events & w' & Hrun & Hcalls & Hwarn & Hlast).
      assert (Hacc :
        (deleted + acceptedDeletions
                     ((group, answer) :: deletionAnswers svc rest w1))%Z =
        (deleted1 + acceptedDeletions (deletionAnswers svc rest w1))%Z).
      { unfold acceptedDeletions, len, deleted1. rewrite filter_cons.
        destruct answer; case_decide; try done; simpl length; lia. }
      rewrite Hacc, Hrun. eexists _, _. split; [reflexivity|].
      split; [|split].
      + unfold deletedGroups in *. rewrite omap_app, Hcalls.
        by destruct answer, progressFn.
      + unfold warnings in *. rewrite omap_app, Hwarn.
        by destruct answer, progressFn.
      + intros -> _. unfold progressReports in *. rewrite omap_app.
        destruct rest as [|g' rest'].
        * simpl in Hrun. injection Hrun as _ <- _.
          unfold acceptedDeletions, len. cbn [filter list_filter length].
          rewrite Z.add_0_r. by destruct answer.
        * specialize (Hlast eq_refl ltac:(done)).
          apply last_Some in Hlast as [l' ->].
          rewrite app_assoc. apply last_snoc.
  Qed.
End DeleteGroupsProperties.

(** C8: [DeleteUserGroups] returns an error only when the listing of the
    categories fails, and then that error.  When the listing succeeds it
    returns no error whatever the answers to the deletions are: every
    user-defined category gets its deletion request, in order; each refusal
    is printed as a warning; and the last progress report gives the number
    of accepted deletions out of the number of user-defined categories. *)
Theorem delete_user_groups_best_effort {World} (svc : Service World)
    (fuel : nat) (progressFn : bool) (w : World) :
  match ListGroups svc fuel w with
  | None => DeleteUserGroups svc fuel progressFn w = None
  | Some (Err err, events, w1) =>
      DeleteUserGroups svc fuel progressFn w = Some (Some err, events, w1)
  | Some (Ok groups, events, w1) =>
      let userGroups := userGroupsOf groups in
      let answers := deletionAnswers svc userGroups w1 in
      ∃ events' w',
        DeleteUserGroups svc fuel progressFn w =
          Some (None, events ++ events', w') ∧
        deletedGroups events' = map GroupResourceName userGroups ∧
        warnings events' = refusedDeletions answers ∧
        (progressFn = true -> userGroups ≠ [] ->
         last (progressReports events') =
         Some (acceptedDeletions answers, len userGroups))
  end.
Proof.
  unfold DeleteUserGroups, bind.
  destruct (ListGroups svc fuel w) as [[[[groups|err] events] w1]|]; try done.
  - rewrite collect_user_groups.
    destruct (Nat.eqb_spec (length (userGroupsOf groups)) 0) as [Hzero|Hpos].
    + apply length_zero_iff_nil in Hzero. rewrite Hzero. simpl.
      exists [], w1. repeat split; done.
    + destruct (deleteGroupsLoop_run svc (userGroupsOf groups) progressFn
                  (len (userGroupsOf groups)) 0%Z w1)
        as (events' & w' & Hrun & Hcalls & Hwarn & Hlast).
      rewrite Hrun. simpl. rewrite app_nil_r.
      exists events', w'. repeat split; done.
  - simpl. by rewrite app_nil_r.
Qed.

(** The sample directory refuses one of its two user categories: the other
    is still deleted, a warning is printed, and no error comes back. *)
Example delete_user_groups_sample :
  ∃ events,
    DeleteUserGroups sampleService 2 true 0 = Some (None, events, 4) ∧
    deletedGroups events = ["contactGroups/6a1b"; "contactGroups/2d9e"] ∧
    warnings events =
      [("Friends of Alice", External "people" "backend error")] ∧
    progressReports events = [(0, 2); (1, 2)]%Z.
Proof. eexists. vm_compute. done. Qed.


(** * Further properties of the code *)

(** ** The sanitiser, continued *)

(** X1: sanitising changes no field data: in each of the twenty-three groups
    it copies, the entries of the output carry, in order, the data of the
    entries of the input; the identifier, the etag, the record metadata, the
    file-as names and the photos are not carried over. *)
Theorem sanitize_keeps_field_data (contact : Person)
    (groupMap : gmap string string) :
  let out := cleanContactForCreation contact groupMap in
  map value (Names out) = map value (Names contact) ∧
  map value (Nicknames out) = map value (Nicknames contact) ∧
  map value (EmailAddresses out) = map value (EmailAddresses contact) ∧
  map value (PhoneNumbers out) = map value (PhoneNumbers contact) ∧
  map value (Addresses out) = map value (Addresses contact) ∧
  map value (Organizations out) = map value (Organizations contact) ∧
  map value (Birthdays out) = map value (Birthdays contact) ∧
  map value (Biographies out) = map value (Biographies contact) ∧
  map value (Urls out) = map value (Urls contact) ∧
  map value (UserDefined out) = map value (UserDefined contact) ∧
  map value (Events out) = map value (Events contact) ∧
  map value (Relations out) = map value (Relations contact) ∧
  map value (Occupations out) = map value (Occupations contact) ∧
  map value (Genders out) = map value (Genders contact) ∧
  map value (ImClients out) = map value (ImClients contact) ∧
  map value (Interests out) = map value (Interests contact) ∧
  map value (SipAddresses out) = map value (SipAddresses contact) ∧
  map value (CalendarUrls out) = map value (CalendarUrls contact) ∧
  map value (ExternalIds out) = map value (ExternalIds contact) ∧
  map value (Locales out) = map value (Locales contact) ∧
  map value (Locations out) = map value (Locations contact) ∧
  map value (MiscKeywords out) = map value (MiscKeywords contact) ∧
  map value (ClientData out) = map value (ClientData contact) ∧
  ResourceName out = "" ∧ Etag out = "" ∧ PersonMetadata out = None ∧
  FileAses out = [] ∧ Photos out = [] ∧ CoverPhotos out = [].
Proof.
  unfold cleanContactForCreation, clearFieldMetadata. cbn.
  rewrite !map_map. repeat split.
Qed.

Lemma sanitizerMembership_short (groupMap : gmap string string)
    (m : Membership) :
  length (sanitizerMembership groupMap m) <= 1.
Proof.
  unfold sanitizerMembership. destruct (groupOf m) as [name|]; simpl; [|lia].
  destruct (String.eqb name preservedGroup); simpl; [lia|].
  destruct (_ || _); simpl; [lia|]. destruct (groupMap !! name); simpl; lia.
Qed.

(** X2: a sanitised record never has more memberships than the input, and
    with an empty remap table (a restore without user categories) it keeps
    exactly the memberships of [contactGroups/myContacts], in order. *)
Theorem sanitize_memberships_without_table :
  (∀ contact groupMap,
     length (Memberships (cleanContactForCreation contact groupMap)) <=
     length (Memberships contact)) ∧
  (∀ contact,
     Memberships (cleanContactForCreation contact ∅) =
     filter (fun m => groupOf m = Some "contactGroups/myContacts")
       (Memberships contact)).
Proof.
  split.
  - intros contact groupMap. rewrite cleanContact_memberships.
    induction (Memberships contact) as [|m ms IH]; simpl; [lia|].
    rewrite length_app. pose proof (sanitizerMembership_short groupMap m). lia.
  - intros contact. rewrite cleanContact_memberships.
    induction (Memberships contact) as [|m ms IH]; [done|].
    simpl. rewrite filter_cons, IH. unfold sanitizerMembership.
    destruct (groupOf m) as [name|] eqn:Hname.
    + destruct (String.eqb_spec name preservedGroup) as [->|Hne].
      * by case_decide.
      * rewrite lookup_empty. case_decide as Heq; [by injection Heq|].
        by destruct (_ || _).
    + by case_decide.
Qed.

(** ** The CSV export, continued *)

Lemma extractLabels_omap (contact : Person)
    (groupNameMap : gmap string string) :
  extractLabels contact groupNameMap =
  omap (fun m =>
          match groupOf m with
          | Some resourceName =>
              if isSystemGroup resourceName then None
              else groupNameMap !! resourceName
          | None => None
          end) (Memberships contact).
Proof.
  unfold extractLabels.
  rewrite (fold_left_append_flat_map (fun m =>
    match groupOf m with
    | Some resourceName =>
        if isSystemGroup resourceName then []
        else match groupNameMap !! resourceName with
             | Some name => [name]
             | None => []
             end
    | None => []
    end)).
  - simpl. induction (Memberships contact) as [|m ms IH]; [done|].
    simpl. rewrite IH. unfold groupOf.
    destruct (ContactGroupMembership (value m)) as [cgm|]; simpl; [|done].
    destruct (isSystemGroup _); [done|]. by destruct (groupNameMap !! _).
  - intros acc m. unfold groupOf.
    destruct (ContactGroupMembership (value m)) as [cgm|]; simpl;
      [|by rewrite app_nil_r].
    destruct (isSystemGroup _); [by rewrite app_nil_r|].
    destruct (groupNameMap !! _); [done | by rewrite app_nil_r].
Qed.

Lemma csvGroupNameMap_fold (groups : list ContactGroup)
    (start : gmap string string) (resourceName name : string) :
  fold_left (fun groupNameMap group =>
    if isUserContactGroup group
    then <[GroupResourceName group := GroupName group]> groupNameMap
    else groupNameMap) groups start !! resourceName = Some name ->
  start !! resourceName = Some name ∨
  ∃ group, group ∈ groups ∧ GroupType group = "USER_CONTACT_GROUP" ∧
           GroupResourceName group = resourceName ∧ GroupName group = name.
Proof.
  revert start. induction groups as [|g gs IH]; intros start Hlookup;
    [by left|].
  simpl in Hlookup. apply IH in Hlookup as [Hstart | (group & Hin & Hrest)].
  - unfold isUserContactGroup in Hstart.
    destruct (String.eqb_spec (GroupType g) "USER_CONTACT_GROUP") as [Hu|Hu];
      [|by left].
    destruct (decide (GroupResourceName g = resourceName)) as [Heq|Hne].
    + rewrite <- Heq, lookup_insert_eq in Hstart. injection Hstart as Hname.
      right. exists g. split; [left|]; done.
    + rewrite lookup_insert_ne in Hstart by done. by left.
  - right. exists group. split; [by right | done].
Qed.

(** X3: every label written in the Labels column of a contact is the name
    of a user-defined category of the archive that a membership of the
    contact refers to, and the resource name of that category is none of
    the well-known system groups. *)
Theorem labels_are_user_group_names (b : BackupFile) (contact : Person)
    (label : string) :
  label ∈ extractLabels contact (csvGroupNameMap (Groups b)) ->
  ∃ group m,
    group ∈ Groups b ∧ GroupType group = "USER_CONTACT_GROUP" ∧
    GroupName group = label ∧
    m ∈ Memberships contact ∧ groupOf m = Some (GroupResourceName group) ∧
    isSystemGroup (GroupResourceName group) = false.
Proof.
  rewrite extractLabels_omap. intros Hin.
  apply list_elem_of_omap in Hin as (m & Hm & Hlabel).
  destruct (groupOf m) as [resourceName|] eqn:Hgroup; [|done].
  destruct (isSystemGroup resourceName) eqn:Hsys; [done|].
  apply csvGroupNameMap_fold in Hlabel as [Hempty | (group & Hg & Hu & Hr & Hn)].
  - by rewrite lookup_empty in Hempty.
  - exists group, m. subst resourceName. done.
Qed.

(** The contact [alice] is member of [contactGroups/6a1b], the category
    "Friends of Alice" of the sample archive. *)
Lemma labels_are_user_group_names_witness :
  "Friends of Alice" ∈
    extractLabels alice (csvGroupNameMap (Groups sampleBackup)) ∧
  ∃ group m,
    group ∈ Groups sampleBackup ∧ GroupType group = "USER_CONTACT_GROUP" ∧
    GroupName group = "Friends of Alice" ∧
    m ∈ Memberships alice ∧ groupOf m = Some (GroupResourceName group) ∧
    isSystemGroup (GroupResourceName group) = false.
Proof.
  assert (Hin : "Friends of Alice" ∈
            extractLabels alice (csvGroupNameMap (Groups sampleBackup))).
  { apply list_elem_of_In. vm_compute. by left. }
  split; [exact Hin|].
  exact (labels_are_user_group_names sampleBackup alice "Friends of Alice" Hin).
Defined.

Lemma mapBytes_empty (f : ascii -> ascii) (s : string) :
  mapBytes f s = "" -> s = "".
Proof. by destruct s. Qed.

Lemma substring_all (s : string) : substring 0 (String.length s) s = s.
Proof. induction s as [|c s IH]; [done|]. simpl. by rewrite IH. Qed.

Lemma prefix_TYPE (label : string) :
  String.prefix "TYPE_" label = true ->
  ∃ rest,
    label = String "T" (String "Y" (String "P" (String "E" (String "_" rest)))).
Proof.
  do 5 (destruct label as [|? label]; [by cbn|]; cbn [String.prefix];
        match goal with
        | |- context [ascii_dec ?a ?b] =>
            destruct (ascii_dec a b) as [<-|]; [|done]
        end).
  intros _. by exists label.
Qed.

Lemma TrimPrefix_TYPE_empty (label : string) :
  TrimPrefix label "TYPE_" = "" -> label = "" ∨ label = "TYPE_".
Proof.
  unfold TrimPrefix, HasPrefix.
  destruct (String.prefix "TYPE_" label) eqn:Hprefix; [|by left].
  apply prefix_TYPE in Hprefix as [rest ->]. simpl.
  rewrite ?Nat.sub_0_r, substring_all. intros ->. by right.
Qed.

Lemma upperByte_not_lower (c : ascii) : isLowerLetter (upperByte c) = false.
Proof.
  destruct c as [[] [] [] [] [] [] [] []]; vm_compute; reflexivity.
Qed.

(** X4: [normalizeLabel] returns the empty string exactly for the labels
    [""] and ["TYPE_"], and what it returns never starts with a lower-case
    ASCII letter. *)
Theorem normalizeLabel_shape (label : string) :
  (normalizeLabel label = "" ↔ label = "" ∨ label = "TYPE_") ∧
  (∀ c rest, normalizeLabel label = String c rest -> isLowerLetter c = false).
Proof.
  unfold normalizeLabel.
  destruct (String.eqb_spec label "") as [->|Hne].
  { split; [by split; [left|] | done]. }
  destruct (ToLower (TrimPrefix label "TYPE_")) as [|c0 rest0] eqn:Hlower.
  { apply mapBytes_empty, TrimPrefix_TYPE_empty in Hlower.
    cbn. split; [by split | done]. }
  assert (Htrim : ¬ (label = "" ∨ label = "TYPE_")).
  { intros [->| ->]; [done | by vm_compute in Hlower]. }
  change (ToUpper (String c0 "") ++ rest0)%string
    with (String (upperByte c0) rest0).
  repeat match goal with
         | |- context [if String.eqb ?a ?b then _ else _] =>
             destruct (String.eqb a b)
         end;
    (split; [split; [done | by intros ?] |]);
    try (by intros c rest [= <- _]).
  intros c rest [= <- _]. apply upperByte_not_lower.
Qed.


Lemma forAppend_flat_map (lo : nat) (n : Z) (body : nat -> list string)
    (acc : list string) :
  forAppend lo n body acc = acc ++ flat_map body (seq lo (Z.to_nat n)).
Proof.
  unfold forAppend. by apply fold_left_append_flat_map.
Qed.


Lemma maxOccurrence_ge {A} (group : Person -> list A)
    (contacts : list Person) (contact : Person) :
  contact ∈ contacts -> (len (group contact) <= maxOccurrence group contacts)%Z.
Proof.
  induction 1 as [c cs|c c' cs _ IH]; unfold maxOccurrence in *; simpl; lia.
Qed.

(** A row is the fourteen singular cells, then one block per repeated group
    with the cells of entry 0, 1, ... up to the count of the group, then the
    notes and the labels. *)
Lemma contactToCSVRow_blocks (contact : Person) (counts : csvFieldCounts)
    (groupNameMap : gmap string string) :
  ∃ base notes,
    length base = 14 ∧
    contactToCSVRow contact counts groupNameMap =
    base ++
    flat_map (cells emailCells blank2 (EmailAddresses contact))
      (seq 0 (Z.to_nat (Emails counts))) ++
    flat_map (cells phoneCells blank2 (PhoneNumbers contact))
      (seq 0 (Z.to_nat (Phones counts))) ++
    flat_map (cells addressCells blank8 (Addresses contact))
      (seq 0 (Z.to_nat (AddressesN counts))) ++
    flat_map (cells eventCells blank2 (Events contact))
      (seq 0 (Z.to_nat (EventsN counts))) ++
    flat_map (cells relationCells blank2 (Relations contact))
      (seq 0 (Z.to_nat (RelationsN counts))) ++
    flat_map (cells urlCells blank2 (Urls contact))
      (seq 0 (Z.to_nat (Websites counts))) ++
    flat_map (cells customCells blank2 (UserDefined contact))
      (seq 0 (Z.to_nat (CustomFields counts))) ++
    [ notes; Join (extractLabels contact groupNameMap) labelSeparator ].
Proof.
  unfold contactToCSVRow.
  destruct (Names contact) as [|name ?];
    destruct (Organizations contact) as [|org ?];
    rewrite !forAppend_flat_map, <- !app_assoc; cbn [app];
    match goal with
    | |- ∃ base notes, _ ∧
           ?c1 :: ?c2 :: ?c3 :: ?c4 :: ?c5 :: ?c6 :: ?c7 :: ?c8 :: ?c9 ::
           ?c10 :: ?c11 :: ?c12 :: ?c13 :: ?c14 :: _ = _ =>
        exists [c1; c2; c3; c4; c5; c6; c7; c8; c9; c10; c11; c12; c13; c14]
    end;
    eexists; (split; [reflexivity|]); cbn [app]; reflexivity.
Qed.





Lemma cells_in_block {A} (render : A -> list string) (blank : list string)
    (entries : list A) (n : nat) (entry : A) (cell : string) :
  entry ∈ entries -> length entries <= n -> cell ∈ render entry ->
  cell ∈ flat_map (cells render blank entries) (seq 0 n).
Proof.
  intros Hentry Hn Hcell.
  apply list_elem_of_lookup in Hentry as [i Hi].
  apply list_elem_of_In, in_flat_map. exists i. split.
  - apply in_seq. apply lookup_lt_Some in Hi. lia.
  - apply list_elem_of_In. unfold cells. by rewrite Hi.
Qed.

Lemma csvCounts_ge (contacts : list Person) (contact : Person) :
  contact ∈ contacts ->
  let counts := csvCounts contacts in
  length (EmailAddresses contact) <= Z.to_nat (Emails counts) ∧
  length (PhoneNumbers contact) <= Z.to_nat (Phones counts) ∧
  length (Addresses contact) <= Z.to_nat (AddressesN counts) ∧
  length (Events contact) <= Z.to_nat (EventsN counts) ∧
  length (Relations contact) <= Z.to_nat (RelationsN counts) ∧
  length (Urls contact) <= Z.to_nat (Websites counts) ∧
  length (UserDefined contact) <= Z.to_nat (CustomFields counts).
Proof.
  intros Hin. cbv zeta. rewrite csvCounts_max. simpl.
  pose proof (maxOccurrence_ge EmailAddresses contacts contact Hin).
  pose proof (maxOccurrence_ge PhoneNumbers contacts contact Hin).
  pose proof (maxOccurrence_ge Addresses contacts contact Hin).
  pose proof (maxOccurrence_ge Events contacts contact Hin).
  pose proof (maxOccurrence_ge Relations contacts contact Hin).
  pose proof (maxOccurrence_ge Urls contacts contact Hin).
  pose proof (maxOccurrence_ge UserDefined contacts contact Hin).
  unfold len in *. lia.
Qed.

(** X6: the CSV of an archive drops no entry of a repeated group: for a
    contact of the archive, every e-mail address, phone number, postal
    address (street, city, region, postal code, country), event date,
    related person, website and custom field (key and value) of the contact
    is a cell of the contact's row. *)
Theorem repeated_entries_reach_the_row (b : BackupFile) (contact : Person)
    (groupNameMap : gmap string string) :
  contact ∈ Contacts b ->
  let row := contactToCSVRow contact (csvCounts (Contacts b)) groupNameMap in
  (∀ e, e ∈ EmailAddresses contact -> EmailAddress.Value (value e) ∈ row) ∧
  (∀ p, p ∈ PhoneNumbers contact -> PhoneNumber.Value (value p) ∈ row) ∧
  (∀ a, a ∈ Addresses contact ->
     Address.StreetAddress (value a) ∈ row ∧ Address.City (value a) ∈ row ∧
     Address.Region (value a) ∈ row ∧ Address.PostalCode (value a) ∈ row ∧
     Address.Country (value a) ∈ row) ∧
  (∀ ev, ev ∈ Events contact -> formatDate (Event.Date (value ev)) ∈ row) ∧
  (∀ r, r ∈ Relations contact -> Relation.Person (value r) ∈ row) ∧
  (∀ u, u ∈ Urls contact -> Url.Value (value u) ∈ row) ∧
  (∀ ud, ud ∈ UserDefined contact ->
     UserDefined.Key (value ud) ∈ row ∧ UserDefined.Value (value ud) ∈ row).
Proof.
  intros Hin. cbv zeta.
  destruct (csvCounts_ge (Contacts b) contact Hin)
    as (He & Hp & Ha & Hev & Hr & Hu & Hud).
  destruct (contactToCSVRow_blocks contact (csvCounts (Contacts b))
              groupNameMap) as (base & notes & _ & ->).
  split; [|split; [|split; [|split; [|split; [|split]]]]];
    intros entry Hentry; repeat split; rewrite !elem_of_app.
  - right; left. eapply (cells_in_block emailCells); eauto.
    apply list_elem_of_In; simpl; tauto.
  - right; right; left. eapply (cells_in_block phoneCells); eauto.
    apply list_elem_of_In; simpl; tauto.
  - do 3 right; left. eapply (cells_in_block addressCells); eauto.
    apply list_elem_of_In; simpl; tauto.
  - do 3 right; left. eapply (cells_in_block addressCells); eauto.
    apply list_elem_of_In; simpl; tauto.
  - do 3 right; left. eapply (cells_in_block addressCells); eauto.
    apply list_elem_of_In; simpl; tauto.
  - do 3 right; left. eapply (cells_in_block addressCells); eauto.
    apply list_elem_of_In; simpl; tauto.
  - do 3 right; left. eapply (cells_in_block addressCells); eauto.
    apply list_elem_of_In; simpl; tauto.
  - do 4 right; left. eapply (cells_in_block eventCells); eauto.
    apply list_elem_of_In; simpl; tauto.
  - do 5 right; left. eapply (cells_in_block relationCells); eauto.
    apply list_elem_of_In; simpl; tauto.
  - do 6 right; left. eapply (cells_in_block urlCells); eauto.
    apply list_elem_of_In; simpl; tauto.
  - do 7 right; left. eapply (cells_in_block customCells); eauto.
    apply list_elem_of_In; simpl; tauto.
  - do 7 right; left. eapply (cells_in_block customCells); eauto.
    apply list_elem_of_In; simpl; tauto.
Qed.

(** The address book of [contactsBackup]: both e-mail addresses of [alice]
    are in her row. *)
Lemma repeated_entries_reach_the_row_witness :
  alice ∈ Contacts contactsBackup ∧
  "alice@example.org" ∈
    contactToCSVRow alice (csvCounts (Contacts contactsBackup)) ∅ ∧
  "al@example.com" ∈
    contactToCSVRow alice (csvCounts (Contacts contactsBackup)) ∅.
Proof.
  assert (Hin : alice ∈ Contacts contactsBackup)
    by (apply list_elem_of_In; simpl; by left).
  split; [exact Hin|].
  destruct (repeated_entries_reach_the_row contactsBackup alice ∅ Hin)
    as (Hemails & _).
  split.
  - apply (Hemails (mkEntry (Some contactSource)
                      (EmailAddress.mk "home" "alice@example.org"))).
    apply list_elem_of_In. simpl. by left.
  - apply (Hemails (mkEntry (Some contactSource)
                      (EmailAddress.mk "work" "al@example.com"))).
    apply list_elem_of_In. simpl. right. by left.
Defined.

(** ** The People API client, continued *)

Section ListingAnyService.
Context {World : Type} (svc : Service World).

(** Whatever the service answers, a listing issues page requests, progress
    reports and pauses only, and its error is the wrapped error of a page
    request. *)
Lemma listContactsLoop_any (fuel : nat) :
  ∀ progressFn allContacts pageToken totalCount w r events w',
    listContactsLoop svc fuel progressFn allContacts pageToken totalCount w =
      Some (r, events, w') ->
    Forall listingEvent events ∧
    (∀ err, r = Err err -> ∃ cause, err = Wrap "failed to list contacts" cause) ∧
    (totalCount ≠ 0%Z ->
     Forall (fun report => report.2 = totalCount) (progressReports events)).
Proof.
  induction fuel as [|fuel IH];
    intros progressFn allContacts pageToken totalCount w r events w' Hrun;
    [done|].
  simpl in Hrun. unfold bind, request in Hrun.
  destruct (ConnectionsList svc pageToken w) as [[resp|err] w1].
  - rewrite report_run in Hrun.
    set (total' := if (totalCount =? 0)%Z && (TotalPeople resp >? 0)%Z
                   then TotalPeople resp else totalCount) in *.
    assert (Htotal : totalCount ≠ 0%Z -> total' = totalCount).
    { intros Hne. subst total'.
      by destruct (Z.eqb_spec totalCount 0). }
    destruct (String.eqb (NextPageToken resp) "").
    + injection Hrun as <- <- <-. split; [|split; [done|]].
      * destruct progressFn; repeat constructor.
      * intros Hne. rewrite <- (Htotal Hne).
        destruct progressFn; repeat constructor.
    + unfold emit in Hrun.
      destruct (listContactsLoop svc fuel progressFn _ _ total' w1)
        as [[[r2 events2] w2]|] eqn:Hrest; [|done].
      injection Hrun as <- <- <-.
      apply IH in Hrest as (Hall & Herr & Htot). split; [|split; [done|]].
      * constructor; [done|]. apply Forall_app. split.
        -- destruct progressFn; repeat constructor.
        -- by constructor.
      * intros Hne. specialize (Htotal Hne).
        assert (Hne' : total' ≠ 0%Z) by congruence.
        specialize (Htot Hne'). rewrite Htotal in Htot.
        destruct progressFn; unfold progressReports in *; simpl;
          [constructor; [by simpl|]|]; done.
  - injection Hrun as <- <- <-. split; [|split].
    + repeat constructor.
    + intros e [= <-]. by exists err.
    + intros _. constructor.
Qed.

Lemma listGroupsLoop_any (fuel : nat) :
  ∀ allGroups pageToken w r events w',
    listGroupsLoop svc fuel allGroups pageToken w = Some (r, events, w') ->
    Forall listingEvent events ∧
    (∀ err, r = Err err ->
       ∃ cause, err = Wrap "failed to list contact groups" cause).
Proof.
  induction fuel as [|fuel IH];
    intros allGroups pageToken w r events w' Hrun; [done|].
  simpl in Hrun. unfold bind, request in Hrun.
  destruct (ContactGroupsList svc pageToken w) as [[resp|err] w1].
  - destruct (String.eqb (GroupsNextPageToken resp) "").
    + injection Hrun as <- <- <-. split; [repeat constructor | done].
    + unfold emit in Hrun.
      destruct (listGroupsLoop svc fuel _ _ w1)
        as [[[r2 events2] w2]|] eqn:Hrest; [|done].
      injection Hrun as <- <- <-. apply IH in Hrest as (Hall & Herr).
      split; [|done]. constructor; [done|]. by constructor.
  - injection Hrun as <- <- <-. split; [repeat constructor|].
    intros e [= <-]. by exists err.
Qed.

Lemma listContactsLoop_counts (pageToken : string) (w : World)
    (pages : list (list Person)) (w' : World) :
  connectionPages svc pageToken w pages w' ->
  ∀ fuel progressFn allContacts totalCount events r w2,
    listContactsLoop svc fuel progressFn allContacts pageToken totalCount w =
      Some (r, events, w2) ->
    (progressReports events).*1 =
    if progressFn then runningCounts (len allContacts) pages else [].
Proof.
  induction 1 as [tok w items total w' Hcall
                 |tok w items next total w1 pages w' Hcall Hnext _ IH];
    intros fuel progressFn allContacts totalCount events r w2 Hrun;
    (destruct fuel as [|fuel]; [done|]);
    simpl in Hrun; unfold bind, request in Hrun;
    rewrite Hcall, report_run in Hrun; simpl in Hrun.
  - injection Hrun as <- <- <-.
    destruct progressFn; [|done]. unfold len. rewrite length_app. simpl.
    by rewrite Nat2Z.inj_add.
  - destruct (String.eqb_spec next ""); [done|]. unfold emit in Hrun.
    match type of Hrun with
    | context [listContactsLoop svc fuel progressFn ?acc next ?tot w1] =>
        destruct (listContactsLoop svc fuel progressFn acc next tot w1)
          as [[[r2 events2] w3]|] eqn:Hrest; [|done]
    end.
    injection Hrun as <- <- <-. apply IH in Hrest.
    destruct progressFn.
    + match goal with
      | |- (progressReports (_ :: [Progress ?c ?t] ++ _ :: events2)).*1 = _ =>
          change ((c, t).1 :: (progressReports events2).*1 =
                  runningCounts (len allContacts) (items :: pages))
      end.
      rewrite Hrest. cbn [runningCounts fst].
      unfold len. rewrite length_app. by rewrite Nat2Z.inj_add.
    + exact Hrest.
Qed.
End ListingAnyService.

Lemma last_runningCounts (fetched : Z) (pages : list (list Person)) :
  pages ≠ [] ->
  last (runningCounts fetched pages) = Some (fetched + len (concat pages))%Z.
Proof.
  revert fetched. induction pages as [|page rest IH]; intros fetched Hne;
    [done|].
  cbn [runningCounts concat]. destruct rest as [|page2 rest].
  - simpl. by rewrite app_nil_r.
  - cbn [runningCounts] in *. rewrite last_cons_cons, IH by done.
    f_equal. unfold len. rewrite length_app, Nat2Z.inj_add. lia.
Qed.

(** X7: with a progress callback, [ListContacts] reports after each page
    the number of contacts fetched so far: the reported counts are the
    running sums of the page sizes, and the last one is the length of the
    list returned. *)
Theorem listing_reports_running_counts {World} (svc : Service World)
    (fuel : nat) (w : World) (pages : list (list Person)) (w' : World) :
  connectionPages svc "" w pages w' -> length pages <= fuel ->
  ∃ events,
    ListContacts svc fuel true w = Some (Ok (concat pages), events, w') ∧
    (progressReports events).*1 = runningCounts 0 pages ∧
    last (progressReports events).*1 = Some (len (concat pages)).
Proof.
  intros Hpages Hfuel.
  destruct (listContactsLoop_pages svc "" w pages w' Hpages fuel true [] 0%Z
              Hfuel) as (events & Hrun & _).
  exists events. split; [exact Hrun|].
  pose proof (listContactsLoop_counts svc "" w pages w' Hpages fuel true []
                0%Z events _ _ Hrun) as Hcounts.
  cbn in Hcounts. split; [exact Hcounts|].
  rewrite Hcounts, last_runningCounts; [done|].
  by destruct Hpages.
Qed.

(** The two pages of the sample directory: counts 1 and 2. *)
Lemma listing_reports_running_counts_witness :
  ∃ events,
    ListContacts sampleService 2 true 0 = Some (Ok [alice; bob], events, 2) ∧
    (progressReports events).*1 = [1; 2]%Z ∧
    last (progressReports events).*1 = Some 2%Z.
Proof.
  exact (listing_reports_running_counts sampleService 2 0 [[alice]; [bob]] 2
           sampleService_connection_pages (le_n 2)).
Defined.

(** X8: when the first page declares a positive total, every progress
    report of [ListContacts] carries that total, whatever the later pages
    declare and however the listing ends. *)
Theorem listing_total_is_first_declared {World} (svc : Service World)
    (fuel : nat) (progressFn : bool) (w w1 w' : World)
    (resp : ListConnectionsResponse) (r : Result (list Person))
    (events : list Event) :
  ConnectionsList svc "" w = (Ok resp, w1) ->
  (TotalPeople resp > 0)%Z ->
  ListContacts svc fuel progressFn w = Some (r, events, w') ->
  Forall (fun report => report.2 = TotalPeople resp) (progressReports events).
Proof.
  intros Hcall Hpos Hrun. unfold ListContacts in Hrun.
  destruct fuel as [|fuel]; [done|].
  simpl in Hrun. unfold bind, request in Hrun.
  rewrite Hcall, report_run in Hrun.
  destruct (Z.gtb_spec (TotalPeople resp) 0) as [_|]; [|lia].
  simpl in Hrun.
  destruct (String.eqb (NextPageToken resp) "").
  - injection Hrun as <- <- <-. destruct progressFn; repeat constructor.
  - unfold emit in Hrun.
    destruct (listContactsLoop svc fuel progressFn _ _ (TotalPeople resp) w1)
      as [[[r2 events2] w2]|] eqn:Hrest; [|done].
    injection Hrun as <- <- <-.
    apply listContactsLoop_any in Hrest as (_ & _ & Htotal).
    specialize (Htotal ltac:(lia)).
    destruct progressFn.
    + match goal with
      | |- Forall ?P (progressReports (_ :: [Progress ?c ?t] ++ _ :: events2)) =>
          change (Forall P ((c, t) :: progressReports events2))
      end.
      by constructor.
    + exact Htotal.
Qed.

(** The sample directory declares two contacts on its first page and none
    on its second. *)
Lemma listing_total_is_first_declared_witness :
  Forall (fun report => report.2 = 2%Z)
    (progressReports
       [ListConnectionsCall ""; Progress 1 2; Sleep;
        ListConnectionsCall "page-2"; Progress 2 2]).
Proof.
  exact (listing_total_is_first_declared sampleService 2 true 0 1 2
           (mkListConnectionsResponse [alice] "page-2" 2) (Ok [alice; bob])
           [ListConnectionsCall ""; Progress 1 2; Sleep;
            ListConnectionsCall "page-2"; Progress 2 2]
           eq_refl eq_refl eq_refl).
Defined.

Section BatchAnyService.
Context {World : Type} {A C : Type} (g : A -> C).
Context (sel : Event -> option (list C)).
Context (size : nat) (items : list A).
Context (send : list A -> M World (option error)).
Context (context : string) (progressFn : bool) (total : Z).

Hypothesis size_positive : 0 < size.
Hypothesis sel_sleep : sel Sleep = None.
Hypothesis sel_progress : ∀ c t, sel (Progress c t) = None.
Hypothesis send_answers :
  ∀ batch w, ∃ r e w',
    send batch w = Some (r, [e], w') ∧ sel e = Some (map g batch).

(** Whatever the answers, the loop ends; what it has sent is a beginning of
    the list, in pieces of at most [size] items, all of the list when it
    ends without error; its error is the wrapped error of a batch. *)
Lemma batchLoop_any (steps : nat) :
  ∀ i done w,
    length items - i < steps ->
    ∃ r events w',
      batchLoop steps size items send context progressFn total i done w =
      Some (r, events, w') ∧
      concat (omap sel events) `prefix_of` map g (drop i items) ∧
      Forall (fun batch => length batch <= size) (omap sel events) ∧
      (r = None -> concat (omap sel events) = map g (drop i items)) ∧
      (∀ err, r = Some err -> ∃ cause, err = Wrap context cause).
Proof.
  induction steps as [|steps IH]; intros i done w Hsteps; [lia|].
  simpl. destruct (Nat.ltb_spec i (length items)) as [Hlt|Hge].
  - set (end_ := if (length items <? i + size)%nat
                 then length items else (i + size)%nat).
    set (batch := take (end_ - i) (drop i items)).
    assert (Hsplit : batch ++ drop (i + size) items = drop i items).
    { subst batch end_. destruct (Nat.ltb_spec (length items) (i + size)).
      - rewrite take_ge by (rewrite length_drop; lia).
        rewrite (drop_ge items (i + size)) by lia. by rewrite app_nil_r.
      - replace (i + size - i) with size by lia.
        rewrite <- drop_drop. apply take_drop. }
    assert (Hlen : length batch <= size).
    { subst batch end_. rewrite length_take.
      destruct (Nat.ltb_spec (length items) (i + size)); lia. }
    destruct (send_answers batch w) as (r & e & w1 & Hsend & Hsel).
    unfold bind. rewrite Hsend. destruct r as [err|].
    + eexists _, _, _. split; [reflexivity|]. simpl. rewrite Hsel. simpl.
      rewrite app_nil_r. split; [|split; [|split]].
      * rewrite <- Hsplit, map_app. by apply prefix_app_r.
      * constructor; [by rewrite length_map | constructor].
      * done.
      * intros ? [= <-]. by eexists.
    + destruct (IH (i + size) (done + len batch)%Z w1 ltac:(lia))
        as (r & events & w' & Hrun & Hprefix & Hsizes & Hall & Herr).
      rewrite report_run. unfold emit. rewrite Hrun.
      eexists _, _, _. split; [reflexivity|].
      assert (Homap :
        omap sel ([e] ++ (if progressFn then [Progress (done + len batch) total]
                          else []) ++ [Sleep] ++ events) =
        map g batch :: omap sel events).
      { simpl. rewrite Hsel. f_equal.
        destruct progressFn; simpl;
          rewrite ?sel_progress, sel_sleep; done. }
      rewrite Homap. simpl. split; [|split; [|split]].
      * rewrite <- Hsplit, map_app. by apply prefix_app.
      * constructor; [by rewrite length_map | done].
      * intros Hr. rewrite (Hall Hr), <- map_app, Hsplit. done.
      * done.
  - exists None, [], w. split; [reflexivity|]. simpl.
    rewrite drop_ge by lia. repeat split; done.
Qed.
End BatchAnyService.

Lemma CreateContacts_any {World} (svc : Service World)
    (contacts : list Person) (groupMap : gmap string string)
    (progressFn : bool) (w : World) :
  ∃ r events w',
    CreateContacts svc contacts groupMap progressFn w = Some (r, events, w') ∧
    concat (createBatches events) `prefix_of`
      map (fun contact => cleanContactForCreation contact groupMap) contacts ∧
    Forall (fun batch => length batch <= 200) (createBatches events) ∧
    (r = None ->
     concat (createBatches events) =
     map (fun contact => cleanContactForCreation contact groupMap) contacts) ∧
    (∀ err, r = Some err ->
       ∃ cause, err = Wrap "failed to create contacts batch" cause).
Proof.
  unfold CreateContacts.
  destruct (Nat.eqb_spec (length contacts) 0) as [Hzero|Hpos].
  - exists None, [], w. apply length_zero_iff_nil in Hzero. subst contacts.
    repeat split; done.
  - destruct (batchLoop_any
                (fun contact => cleanContactForCreation contact groupMap)
                (fun e => match e with
                          | BatchCreateCall b => Some b | _ => None end)
                batchCreateSize contacts
                (fun batch =>
                   request
                     (BatchCreateCall
                        (map (fun contact =>
                                cleanContactForCreation contact groupMap)
                           batch))
                     (BatchCreateContacts svc
                        (map (fun contact =>
                                cleanContactForCreation contact groupMap)
                           batch)))
                "failed to create contacts batch" progressFn (len contacts)
                ltac:(unfold batchCreateSize; lia) eq_refl
                (fun _ _ => eq_refl)) with (steps := S (length contacts))
                (i := 0) (done := 0%Z) (w := w)
      as (r & events & w' & Hrun & Hprefix & Hsizes & Hall & Herr).
    + intros batch w0. unfold request.
      destruct (BatchCreateContacts svc _ w0) as [r w0'].
      eexists _, _, _. split; reflexivity.
    + lia.
    + exists r, events, w'. unfold createBatches. repeat split; done.
Qed.

Section BatchAnswers.
Context {World : Type} {A B : Type} (g : list A -> B).
Context (call : B -> Event) (answer : B -> World -> option error * World).
Context (sel : Event -> option B).
Context (size : nat) (items : list A).
Context (context : string) (progressFn : bool) (total : Z).

Hypothesis sel_call : ∀ b, sel (call b) = Some b.
Hypothesis sel_sleep : sel Sleep = None.
Hypothesis sel_progress : ∀ c t, sel (Progress c t) = None.

(** A run of the loop follows the answers: a batch is sent only after the
    service has accepted the batches before it, and the batch it refuses is
    the last event of the run, its error the one returned, wrapped. *)
Lemma batchLoop_answers (steps : nat) :
  ∀ i sent w r events w',
    batchLoop steps size items
      (fun batch => request (call (g batch)) (answer (g batch)))
      context progressFn total i sent w = Some (r, events, w') ->
    match r with
    | None => acceptedBatches answer (omap sel events) w w'
    | Some err =>
        ∃ accepted refused cause w1,
          omap sel events = accepted ++ [refused] ∧
          acceptedBatches answer accepted w w1 ∧
          answer refused w1 = (Some cause, w') ∧
          err = Wrap context cause ∧
          last events = Some (call refused)
    end.
Proof.
  induction steps as [|steps IH]; intros i sent w r events w' Hrun; [done|].
  simpl in Hrun. destruct (i <? length items)%nat.
  - set (end_ := if (length items <? i + size)%nat
                 then length items else (i + size)%nat) in Hrun.
    set (batch := take (end_ - i) (drop i items)) in Hrun.
    unfold bind, request in Hrun.
    destruct (answer (g batch) w) as [[cause|] w1] eqn:Hanswer.
    + injection Hrun as <- <- <-. simpl. rewrite sel_call.
      exists [], (g batch), cause, w. by repeat split.
    + rewrite report_run in Hrun. unfold emit in Hrun.
      match type of Hrun with
      | context [batchLoop steps ?sz ?it ?sd ?cx ?pf ?tt ?j ?d w1] =>
          destruct (batchLoop steps sz it sd cx pf tt j d w1)
            as [[[r0 events0] w0]|] eqn:Hrest; [|done]
      end.
      injection Hrun as <- <- <-.
      apply IH in Hrest.
      assert (Homap :
        omap sel ([call (g batch)] ++
                  ((if progressFn
                    then [Progress (sent + len batch) total] else []) ++
                   [Sleep] ++ events0)) =
        g batch :: omap sel events0).
      { simpl. rewrite sel_call. f_equal.
        destruct progressFn; simpl;
          rewrite ?sel_progress, sel_sleep; done. }
      destruct r0 as [err|].
      * destruct Hrest as (accepted & refused & cause & w2 & Hsel & Hacc &
                           Hrefused & -> & Hlast).
        assert (Hlast' :
          last ([call (g batch)] ++
                ((if progressFn
                  then [Progress (sent + len batch) total] else []) ++
                 [Sleep] ++ events0)) = Some (call refused))
          by (by rewrite !last_app, Hlast).
        exists (g batch :: accepted), refused, cause, w2.
        cbn [app] in Homap, Hlast' |- *.
        rewrite Homap, Hsel, Hlast'. split; [done|]. split; [by exists w1|].
        done.
      * cbn [app] in Homap |- *. rewrite Homap. by exists w1.
  - injection Hrun as <- <- <-. done.
Qed.
End BatchAnswers.

(** X9: whatever the service answers, [CreateContacts] ends, and the
    contacts it has sent are a beginning of the sanitised input list, cut in
    batches of at most 200.  The run follows the answers of the service: a
    batch is sent only after the service accepted every batch before it;
    when no error is returned the service has accepted all the batches and
    they make up the whole list; when an error is returned, it is what the
    service answered to the last batch sent, wrapped as "failed to create
    contacts batch", and that request is the last thing the run did. *)
Theorem create_contacts_sends_a_prefix {World} (svc : Service World)
    (contacts : list Person) (groupMap : gmap string string)
    (progressFn : bool) (w : World) :
  ∃ r events w',
    CreateContacts svc contacts groupMap progressFn w = Some (r, events, w') ∧
    concat (createBatches events) `prefix_of`
      map (fun contact => cleanContactForCreation contact groupMap) contacts ∧
    Forall (fun batch => length batch <= 200) (createBatches events) ∧
    match r with
    | None =>
        concat (createBatches events) =
        map (fun contact => cleanContactForCreation contact groupMap)
          contacts ∧
        acceptedBatches (BatchCreateContacts svc) (createBatches events) w w'
    | Some err =>
        ∃ accepted refused cause w1,
          createBatches events = accepted ++ [refused] ∧
          acceptedBatches (BatchCreateContacts svc) accepted w w1 ∧
          BatchCreateContacts svc refused w1 = (Some cause, w') ∧
          err = Wrap "failed to create contacts batch" cause ∧
          last events = Some (BatchCreateCall refused)
    end.
Proof.
  destruct (CreateContacts_any svc contacts groupMap progressFn w)
    as (r & events & w' & Hrun & Hprefix & Hsizes & Hall & _).
  exists r, events, w'. split; [done|]. split; [done|]. split; [done|].
  unfold CreateContacts in Hrun.
  destruct (length contacts =? 0)%nat.
  - injection Hrun as <- <- <-. split; [by apply Hall | done].
  - apply (batchLoop_answers
             (map (fun contact => cleanContactForCreation contact groupMap))
             BatchCreateCall (BatchCreateContacts svc)
             (fun e => match e with
                       | BatchCreateCall b => Some b | _ => None end))
      in Hrun; [|done..].
    fold (createBatches events) in Hrun.
    destruct r as [err|]; [done|]. split; [by apply Hall | done].
Qed.


Section CreateGroupsProperties.
Context {World : Type} (svc : Service World).

Lemma createGroupsLoop_any (groups : list ContactGroup) (progressFn : bool)
    (totalGroups : Z) :
  ∀ resourceNameMap created w,
    ∃ r events w',
      createGroupsLoop svc groups progressFn totalGroups resourceNameMap
        created w = Some (r, events, w') ∧
      createdGroups events `prefix_of` map GroupName (userGroupsOf groups) ∧
      match r with
      | Ok table =>
          createdGroups events = map GroupName (userGroupsOf groups) ∧
          dom table =
            dom resourceNameMap ∪
            list_to_set (map GroupResourceName (userGroupsOf groups)) ∧
          (∀ old new, table !! old = Some new ->
             resourceNameMap !! old = Some new ∨ answeredFor svc groups old new)
      | Err err =>
          ∃ group cause,
            group ∈ userGroupsOf groups ∧
            err = Wrap (String.append "failed to create group "
                          (GroupName group)) cause ∧
            last events = Some (CreateGroupCall (GroupName group))
      end.
Proof.
  induction groups as [|group rest IH]; intros resourceNameMap created w.
  - exists (Ok resourceNameMap), [], w. split; [reflexivity|].
    split; [done|]. split; [done|]. split; [set_solver | by left].
  - assert (Hweaken : ∀ old new,
              answeredFor svc rest old new ->
              answeredFor svc (group :: rest) old new).
    { intros old new (g & w0 & ng & w1 & Hg & Hrest).
      exists g, w0, ng, w1. split; [|done].
      unfold userGroupsOf in *. rewrite filter_cons.
      case_decide; [by right | done]. }
    simpl. unfold isUserContactGroup, userGroupsOf.
    rewrite filter_cons.
    destruct (String.eqb_spec (GroupType group) "USER_CONTACT_GROUP")
      as [Huser|Hsys]; simpl; case_decide; try done.
    + unfold bind, request.
      destruct (ContactGroupsCreate svc (GroupName group) w)
        as [[newGroup|err] w1] eqn:Hcall.
      * destruct (IH (<[GroupResourceName group :=
                         GroupResourceName newGroup]> resourceNameMap)
                    (created + 1)%Z w1)
          as (r & events & w' & Hrun & Hprefix & Hr).
        rewrite report_run. unfold emit. rewrite Hrun.
        eexists _, _, _. split; [reflexivity|].
        assert (Hcreated :
          createdGroups
            ([CreateGroupCall (GroupName group)] ++
             (if progressFn then [Progress (created + 1) totalGroups] else [])
             ++ [Sleep] ++ events) =
          GroupName group :: createdGroups events)
          by (unfold createdGroups; by destruct progressFn).
        rewrite Hcreated. split; [by apply (prefix_app [GroupName group])|].
        destruct r as [table|err].
        -- destruct Hr as (Hall & Hdom & Hvalues).
           split; [simpl; by rewrite Hall|]. split.
           ++ rewrite Hdom, dom_insert_L. simpl. set_solver.
           ++ intros old new Hlookup.
              apply Hvalues in Hlookup as [Hlookup | Hanswered].
              ** destruct (decide (GroupResourceName group = old)) as [<-|Hne].
                 --- rewrite lookup_insert_eq in Hlookup.
                     injection Hlookup as <-. right.
                     exists group, w, newGroup, w1.
                     split; [|done]. unfold userGroupsOf.
                     rewrite filter_cons. case_decide; [by left | done].
                 --- rewrite lookup_insert_ne in Hlookup by done. by left.
              ** right. by apply Hweaken.
        -- destruct Hr as (g & cause & Hg & -> & Hlast).
           exists g, cause. split; [by right|]. split; [done|].
           apply last_Some in Hlast as [l' ->].
           rewrite !app_assoc. apply last_snoc.
      * eexists _, _, _. split; [reflexivity|]. simpl.
        split; [by apply prefix_cons, prefix_nil|].
        exists group, err. split; [by left | done].
    + destruct (IH resourceNameMap created w)
        as (r & events & w' & Hrun & Hprefix & Hr).
      exists r, events, w'. split; [exact Hrun|]. split; [done|].
      destruct r as [table|err]; [|done].
      destruct Hr as (Hall & Hdom & Hvalues). split; [done|].
      split; [done|]. intros old new Hlookup.
      apply Hvalues in Hlookup as [?|?]; [by left | right; by apply Hweaken].
Qed.
End CreateGroupsProperties.


Lemma createGroupsLoop_accepted {World} (svc : Service World)
    (progressFn : bool) (totalGroups : Z) (groups : list ContactGroup) :
  (∀ name w0, ∃ newGroup w1,
     ContactGroupsCreate svc name w0 = (Ok newGroup, w1)) ->
  ∀ resourceNameMap created w,
    ∃ table events w',
      createGroupsLoop svc groups progressFn totalGroups resourceNameMap
        created w = Some (Ok table, events, w').
Proof.
  intros Haccept.
  induction groups as [|g rest IH]; intros resourceNameMap created w.
  - by eexists _, _, _.
  - simpl. destruct (negb (isUserContactGroup g)); [apply IH|].
    unfold bind, request.
    destruct (Haccept (GroupName g) w) as (newGroup & w1 & ->).
    rewrite report_run. unfold emit.
    destruct (IH (<[GroupResourceName g := GroupResourceName newGroup]>
                    resourceNameMap) (created + 1)%Z w1)
      as (table & events & w' & ->).
    by eexists _, _, _.
Qed.

(** X12: when the service accepts every creation, [CreateGroups] returns a
    table: a category of the list has an entry exactly when it is
    user-defined. *)
Theorem create_groups_accepting_service {World} (svc : Service World)
    (groups : list ContactGroup) (progressFn : bool) (w : World) :
  (∀ name w0, ∃ newGroup w1,
     ContactGroupsCreate svc name w0 = (Ok newGroup, w1)) ->
  ∃ table events w',
    CreateGroups svc groups progressFn w = Some (Ok table, events, w') ∧
    length (createdGroups events) = length (userGroupsOf groups) ∧
    (∀ group, group ∈ groups ->
       GroupType group = "USER_CONTACT_GROUP" ->
       is_Some (table !! GroupResourceName group)) ∧
    (∀ old, is_Some (table !! old) ->
       ∃ group, group ∈ groups ∧ GroupType group = "USER_CONTACT_GROUP" ∧
                GroupResourceName group = old).
Proof.
  intros Haccept.
  destruct (createGroupsLoop_any svc groups progressFn (len groups) ∅ 0%Z w)
    as (r & events & w' & Hrun & Hprefix & Hr).
  fold (CreateGroups svc groups progressFn w) in Hrun.
  destruct r as [table|err].
  - destruct Hr as (Hall & Hdom & _). rewrite dom_empty_L in Hdom.
    exists table, events, w'. split; [exact Hrun|].
    split; [by rewrite Hall, length_map|]. split.
    + intros group Hin Huser. apply elem_of_dom. rewrite Hdom.
      apply elem_of_union_r, elem_of_list_to_set, list_elem_of_fmap.
      exists group. split; [done|]. unfold userGroupsOf.
      by apply list_elem_of_filter.
    + intros old Hsome. apply elem_of_dom in Hsome. rewrite Hdom in Hsome.
      apply elem_of_union in Hsome as [Hempty|Hsome]; [set_solver|].
      apply elem_of_list_to_set, list_elem_of_fmap in Hsome
        as (group & -> & Hgroup).
      unfold userGroupsOf in Hgroup.
      apply list_elem_of_filter in Hgroup as [Huser Hin].
      by exists group.
  - exfalso.
    destruct (createGroupsLoop_accepted svc progressFn (len groups) groups
                Haccept ∅ 0%Z w) as (table & events2 & w2 & Hok).
    unfold CreateGroups in Hrun. congruence.
Qed.

(** ** A restore, phase by phase *)

Section PhaseEvents.
Context {World : Type} (svc : Service World).

Lemma batchLoop_events {A} (Q : Event -> Prop) (size : nat) (items : list A)
    (send : list A -> M World (option error)) (context : string)
    (progressFn : bool) (total : Z) :
  Q Sleep -> (∀ c t, Q (Progress c t)) ->
  (∀ batch w r events w',
     send batch w = Some (r, events, w') -> Forall Q events) ->
  ∀ steps i sent w r events w',
    batchLoop steps size items send context progressFn total i sent w =
      Some (r, events, w') ->
    Forall Q events.
Proof.
  intros Hsleep Hprogress Hsend.
  induction steps as [|steps IH]; intros i sent w r events w' Hrun; [done|].
  simpl in Hrun. destruct (i <? length items)%nat.
  - unfold bind in Hrun.
    match type of Hrun with
    | context [send ?b w] =>
        destruct (send b w) as [[[r1 events1] w1]|] eqn:Hs; [|done]
    end.
    apply Hsend in Hs. destruct r1 as [err|].
    + injection Hrun as <- <- <-. by rewrite app_nil_r.
    + rewrite report_run in Hrun. unfold emit in Hrun.
      match type of Hrun with
      | context [batchLoop steps size items send context progressFn total
                   ?i' ?d' w1] =>
          destruct (batchLoop steps size items send context progressFn total
                      i' d' w1) as [[[r2 events2] w2]|] eqn:Hrest; [|done]
      end.
      injection Hrun as <- <- <-. apply IH in Hrest.
      apply Forall_app. split; [done|]. apply Forall_app. split.
      * destruct progressFn; repeat constructor. apply Hprogress.
      * by constructor.
  - injection Hrun as <- <- <-. constructor.
Qed.

Lemma listContactsLoop_events (fuel : nat) :
  ∀ progressFn allContacts pageToken totalCount w r events w',
    listContactsLoop svc fuel progressFn allContacts pageToken totalCount w =
      Some (r, events, w') ->
    Forall deleteContactsEvent events.
Proof.
  induction fuel as [|fuel IH];
    intros progressFn allContacts pageToken totalCount w r events w' Hrun;
    [done|].
  simpl in Hrun. unfold bind, request in Hrun.
  destruct (ConnectionsList svc pageToken w) as [[resp|err] w1].
  - rewrite report_run in Hrun.
    destruct (String.eqb (NextPageToken resp) "").
    + injection Hrun as <- <- <-. destruct progressFn; repeat constructor.
    + unfold emit in Hrun.
      match type of Hrun with
      | context [listContactsLoop svc fuel progressFn ?a ?t ?c w1] =>
          destruct (listContactsLoop svc fuel progressFn a t c w1)
            as [[[r2 events2] w2]|] eqn:Hrest; [|done]
      end.
      injection Hrun as <- <- <-. apply IH in Hrest.
      constructor; [done|]. apply Forall_app. split.
      * destruct progressFn; repeat constructor.
      * by constructor.
  - injection Hrun as <- <- <-. repeat constructor.
Qed.

Lemma listGroupsLoop_events (fuel : nat) :
  ∀ allGroups pageToken w r events w',
    listGroupsLoop svc fuel allGroups pageToken w = Some (r, events, w') ->
    Forall deleteGroupsEvent events.
Proof.
  induction fuel as [|fuel IH];
    intros allGroups pageToken w r events w' Hrun; [done|].
  simpl in Hrun. unfold bind, request in Hrun.
  destruct (ContactGroupsList svc pageToken w) as [[resp|err] w1].
  - destruct (String.eqb (GroupsNextPageToken resp) "").
    + injection Hrun as <- <- <-. repeat constructor.
    + unfold emit in Hrun.
      match type of Hrun with
      | context [listGroupsLoop svc fuel ?a ?t w1] =>
          destruct (listGroupsLoop svc fuel a t w1)
            as [[[r2 events2] w2]|] eqn:Hrest; [|done]
      end.
      injection Hrun as <- <- <-. apply IH in Hrest.
      constructor; [done|]. by constructor.
  - injection Hrun as <- <- <-. repeat constructor.
Qed.

Lemma DeleteAllContacts_events (fuel : nat) (progressFn : bool)
    (w : World) r events w' :
  DeleteAllContacts svc fuel progressFn w = Some (r, events, w') ->
  Forall deleteContactsEvent events.
Proof.
  unfold DeleteAllContacts, bind, ListContacts.
  destruct (listContactsLoop svc fuel false [] "" 0 w)
    as [[[[contacts|err] events1] w1]|] eqn:Hlist; [| |done];
    apply listContactsLoop_events in Hlist.
  - destruct (length contacts =? 0)%nat.
    + intros [= <- <- <-]. by rewrite app_nil_r.
    + match goal with
      | |- context [batchLoop ?st ?sz ?it ?sd ?cx ?pf ?tt ?i ?d w1] =>
          destruct (batchLoop st sz it sd cx pf tt i d w1)
            as [[[r2 events2] w2]|] eqn:Hloop; [|done]
      end.
      intros [= <- <- <-]. apply Forall_app. split; [done|].
      eapply (batchLoop_events deleteContactsEvent); [done | done | | exact Hloop].
      intros batch w0 r0 events0 w0'. unfold request.
      destruct (BatchDeleteContacts svc batch w0).
      intros [= <- <- <-]. repeat constructor.
  - intros [= <- <- <-]. by rewrite app_nil_r.
Qed.

Lemma deleteGroupsLoop_events (userGroups : list ContactGroup)
    (progressFn : bool) (totalGroups : Z) :
  ∀ deleted w r events w',
    deleteGroupsLoop svc userGroups progressFn totalGroups deleted w =
      Some (r, events, w') ->
    Forall deleteGroupsEvent events.
Proof.
  induction userGroups as [|group rest IH]; intros deleted w r events w' Hrun.
  - injection Hrun as <- <- <-. constructor.
  - rewrite deleteGroupsLoop_cons in Hrun.
    destruct (ContactGroupsDelete svc (GroupResourceName group) w)
      as [answer w1].
    cbv zeta in Hrun.
    match type of Hrun with
    | context [deleteGroupsLoop svc rest progressFn totalGroups ?d w1] =>
        destruct (deleteGroupsLoop svc rest progressFn totalGroups d w1)
          as [[[r2 events2] w2]|] eqn:Hrest; [|done]
    end.
    injection Hrun as <- <- <-. apply IH in Hrest.
    destruct answer, progressFn; cbn [app];
      repeat (constructor; [exact I|]); exact Hrest.
Qed.

Lemma DeleteUserGroups_events (fuel : nat) (progressFn : bool)
    (w : World) r events w' :
  DeleteUserGroups svc fuel progressFn w = Some (r, events, w') ->
  Forall deleteGroupsEvent events.
Proof.
  unfold DeleteUserGroups, bind, ListGroups.
  destruct (listGroupsLoop svc fuel [] "" w)
    as [[[[groups|err] events1] w1]|] eqn:Hlist; [| |done];
    apply listGroupsLoop_events in Hlist.
  - destruct (length _ =? 0)%nat.
    + intros [= <- <- <-]. by rewrite app_nil_r.
    + match goal with
      | |- context [deleteGroupsLoop svc ?g ?pf ?t ?d w1] =>
          destruct (deleteGroupsLoop svc g pf t d w1)
            as [[[r2 events2] w2]|] eqn:Hloop; [|done]
      end.
      intros [= <- <- <-]. apply deleteGroupsLoop_events in Hloop.
      apply Forall_app. split; [done|]. by rewrite app_nil_r.
  - intros [= <- <- <-]. by rewrite app_nil_r.
Qed.

Lemma createGroupsLoop_events (groups : list ContactGroup)
    (progressFn : bool) (totalGroups : Z) :
  ∀ resourceNameMap created w r events w',
    createGroupsLoop svc groups progressFn totalGroups resourceNameMap
      created w = Some (r, events, w') ->
    Forall createGroupsEvent events.
Proof.
  induction groups as [|group rest IH];
    intros resourceNameMap created w r events w' Hrun.
  - injection Hrun as <- <- <-. constructor.
  - simpl in Hrun. destruct (negb (isUserContactGroup group));
      [by eapply IH|].
    unfold bind, request in Hrun.
    destruct (ContactGroupsCreate svc (GroupName group) w)
      as [[newGroup|err] w1].
    + rewrite report_run in Hrun. unfold emit in Hrun.
      match type of Hrun with
      | context [createGroupsLoop svc rest progressFn totalGroups ?m ?c w1] =>
          destruct (createGroupsLoop svc rest progressFn totalGroups m c w1)
            as [[[r2 events2] w2]|] eqn:Hrest; [|done]
      end.
      injection Hrun as <- <- <-. apply IH in Hrest.
      constructor; [done|]. apply Forall_app. split.
      * destruct progressFn; repeat constructor.
      * by constructor.
    + injection Hrun as <- <- <-. repeat constructor.
Qed.

Lemma CreateContacts_events (contacts : list Person)
    (groupMap : gmap string string) (progressFn : bool)
    (w : World) r events w' :
  CreateContacts svc contacts groupMap progressFn w = Some (r, events, w') ->
  Forall createContactsEvent events.
Proof.
  unfold CreateContacts. destruct (length contacts =? 0)%nat.
  - intros [= <- <- <-]. constructor.
  - apply (batchLoop_events createContactsEvent); [done | done |].
    intros batch w0 r0 events0 w0'. unfold request.
    destruct (BatchCreateContacts svc _ w0).
    intros [= <- <- <-]. repeat constructor.
Qed.
End PhaseEvents.

Lemma no_create_batches (events : list Event) :
  Forall deleteContactsEvent events ∨ Forall deleteGroupsEvent events ∨
  Forall createGroupsEvent events ->
  createBatches events = [].
Proof.
  intros H. unfold createBatches.
  induction events as [|e events IH]; [done|].
  assert (Htail : Forall deleteContactsEvent events ∨
                  Forall deleteGroupsEvent events ∨
                  Forall createGroupsEvent events).
  { destruct H as [H|[H|H]]; inversion H; auto. }
  destruct e; simpl; try (by apply IH).
  destruct H as [H|[H|H]]; by inversion H.
Qed.

Lemma userGroupsOf_idemp (groups : list ContactGroup) :
  userGroupsOf (userGroupsOf groups) = userGroupsOf groups.
Proof.
  unfold userGroupsOf. induction groups as [|g gs IH]; [done|].
  rewrite filter_cons. case_decide; [|done].
  rewrite filter_cons. case_decide; [by rewrite IH | done].
Qed.

Section RestoreProperties.
Context {World : Type} (C : Codec) (svc : Service World).
Context (inputFile credentialsFile : string) (fs : FileSystem (Bytes C)).
Context (credentialsExist skipConfirm : bool) (stdin : Result string).
Context (authenticate newClient : option error) (fuel : nat).

(** The shape of every run of [runRestore]: no event at all, or the four
    phases one after the other, reached with a loaded archive, credentials,
    a confirmation and a client. *)
Lemma runRestore_shape (w : World) (r : option error) (events : list Event)
    (w' : World) :
  runRestore C svc inputFile credentialsFile fs credentialsExist skipConfirm
    stdin authenticate newClient fuel w = Some (r, events, w') ->
  (events = [] ∧ w' = w) ∨
  ∃ backup e1 e2 e3 e4 table,
    LoadBackupFile C inputFile fs = Ok backup ∧
    credentialsExist = true ∧
    (skipConfirm = true ∨
     ∃ response, stdin = Ok response ∧ confirmed response = true) ∧
    authenticate = None ∧ newClient = None ∧
    events = e1 ++ e2 ++ e3 ++ e4 ∧
    Forall deleteContactsEvent e1 ∧ Forall deleteGroupsEvent e2 ∧
    Forall createGroupsEvent e3 ∧ Forall createContactsEvent e4 ∧
    (∀ old new, table !! old = Some new ->
       answeredFor svc (Groups backup) old new) ∧
    concat (createBatches e4) `prefix_of`
      map (fun contact => cleanContactForCreation contact table)
        (Contacts backup).
Proof.
  unfold runRestore.
  destruct (files fs !! inputFile); [|intros [= <- <- <-]; by left].
  destruct (LoadBackupFile C inputFile fs) as [backup|err];
    [|intros [= <- <- <-]; by left].
  destruct credentialsExist; simpl; [|intros [= <- <- <-]; by left].
  intros Hrun.
  assert (Hconfirm :
    (skipConfirm = true ∨
     ∃ response, stdin = Ok response ∧ confirmed response = true) ∨
    (events = [] ∧ w' = w)).
  { destruct skipConfirm; [left; by left|].
    destruct stdin as [response|err];
      [|injection Hrun as <- <- <-; by right].
    destruct (confirmed response) eqn:Hc;
      [left; right; by exists response
      |injection Hrun as <- <- <-; by right]. }
  destruct Hconfirm as [Hconfirm|?]; [|by left].
  assert (Hgo : (if skipConfirm then Ok true
                 else match stdin with
                      | Ok response => Ok (confirmed response)
                      | Err err => Err (Wrap "failed to read response" err)
                      end) = Ok true).
  { destruct Hconfirm as [->|(response & -> & Hc)]; [done|].
    destruct skipConfirm; by rewrite ?Hc. }
  rewrite Hgo in Hrun. clear Hgo.
  destruct authenticate; [injection Hrun as <- <- <-; by left|].
  destruct newClient; [injection Hrun as <- <- <-; by left|].
  right. exists backup. unfold bind in Hrun.
  destruct (DeleteAllContacts svc fuel true w) as [[[r1 e1] w1]|] eqn:H1;
    [|done].
  apply DeleteAllContacts_events in H1.
  destruct r1 as [err|].
  { injection Hrun as <- <- <-. exists e1, [], [], [], ∅.
    rewrite !app_nil_r. repeat split; try done. by apply prefix_nil. }
  destruct (DeleteUserGroups svc fuel true w1) as [[[r2 e2] w2]|] eqn:H2;
    [|done].
  apply DeleteUserGroups_events in H2.
  destruct r2 as [err|].
  { injection Hrun as <- <- <-. exists e1, e2, [], [], ∅.
    rewrite !app_nil_r. repeat split; try done. by apply prefix_nil. }
  assert (Hgroups : ∃ r3 e3 w3,
            (if (0 <? length (GetUserGroups backup))%nat
             then CreateGroups svc (GetUserGroups backup) true
             else ret (Ok ∅)) w2 = Some (r3, e3, w3) ∧
            Forall createGroupsEvent e3 ∧
            ∀ table, r3 = Ok table ->
              ∀ old new, table !! old = Some new ->
                answeredFor svc (Groups backup) old new).
  { destruct (0 <? length (GetUserGroups backup))%nat.
    - destruct (createGroupsLoop_any svc (GetUserGroups backup) true
                  (len (GetUserGroups backup)) ∅ 0%Z w2)
        as (r3 & e3 & w3 & Hrun3 & _ & Hr3).
      exists r3, e3, w3. split; [exact Hrun3|]. split.
      + by apply createGroupsLoop_events in Hrun3.
      + intros table -> old new Hlookup.
        destruct Hr3 as (_ & _ & Hvalues).
        apply Hvalues in Hlookup as [Hempty|Hanswered];
          [by rewrite lookup_empty in Hempty|].
        destruct Hanswered as (g & w0 & ng & w4 & Hg & Hrest).
        exists g, w0, ng, w4. split; [|done].
        by rewrite GetUserGroups_filter, userGroupsOf_idemp in Hg.
    - exists (Ok ∅), [], w2. split; [done|]. split; [constructor|].
      intros table [= <-] old new Hlookup. by rewrite lookup_empty in Hlookup. }
  destruct Hgroups as (r3 & e3 & w3 & Hrun3 & He3 & Hvalues).
  rewrite Hrun3 in Hrun. destruct r3 as [table|err].
  2:{ injection Hrun as <- <- <-. exists e1, e2, e3, [], ∅.
      rewrite !app_nil_r. repeat split; try done. by apply prefix_nil. }
  specialize (Hvalues table eq_refl).
  assert (Hcontacts : ∃ r4 e4 w4,
            (if (0 <? length (Contacts backup))%nat
             then CreateContacts svc (Contacts backup) table true
             else ret None) w3 = Some (r4, e4, w4) ∧
            Forall createContactsEvent e4 ∧
            concat (createBatches e4) `prefix_of`
              map (fun contact => cleanContactForCreation contact table)
                (Contacts backup)).
  { destruct (0 <? length (Contacts backup))%nat.
    - destruct (CreateContacts_any svc (Contacts backup) table true w3)
        as (r4 & e4 & w4 & Hrun4 & Hprefix & _).
      exists r4, e4, w4. split; [exact Hrun4|]. split; [|done].
      by apply CreateContacts_events in Hrun4.
    - exists None, [], w3. split; [done|]. split; [constructor|].
      by apply prefix_nil. }
  destruct Hcontacts as (r4 & e4 & w4 & Hrun4 & He4 & Hprefix).
  rewrite Hrun4 in Hrun.
  exists e1, e2, e3, e4, table.
  assert (events = e1 ++ e2 ++ e3 ++ e4) as ->.
  { destruct r4; injection Hrun as <- <- <-; by rewrite !app_nil_r. }
  repeat split; done.
Qed.
End RestoreProperties.

(** White space beyond ASCII is trimmed too: an answer that ends in a
    no-break space (U+00A0) and a line feed confirms. *)
Example confirmed_after_no_break_space :
  confirmed (String "Y" (String "e" (String "s"
    (String (ascii_of_nat 194) (String (ascii_of_nat 160)
      (String (ascii_of_nat 10) EmptyString)))))) = true ∧
  TrimSpace (String (ascii_of_nat 227) (String (ascii_of_nat 128)
    (String (ascii_of_nat 128) (String "y" (String (ascii_of_nat 194)
      (String (ascii_of_nat 133) EmptyString)))))) = "y" ∧
  TrimSpace (String "y" (String (ascii_of_nat 160) EmptyString)) =
    String "y" (String (ascii_of_nat 160) EmptyString).
Proof. vm_compute. done. Qed.

(** X13: a restore sends no request to the directory unless the archive was
    loaded, the credentials file exists, the user confirmed (an answer that
    reads "yes" or "y" once trimmed and lower-cased) or confirmation was
    switched off, and authentication and client construction succeeded. *)
Theorem restore_requests_need_confirmation {World} (C : Codec)
    (svc : Service World) (inputFile credentialsFile : string)
    (fs : FileSystem (Bytes C)) (credentialsExist skipConfirm : bool)
    (stdin : Result string) (authenticate newClient : option error)
    (fuel : nat) (w : World) (r : option error) (events : list Event)
    (w' : World) :
  runRestore C svc inputFile credentialsFile fs credentialsExist skipConfirm
    stdin authenticate newClient fuel w = Some (r, events, w') ->
  events ≠ [] ->
  (∃ backup, LoadBackupFile C inputFile fs = Ok backup) ∧
  credentialsExist = true ∧
  (skipConfirm = true ∨
   ∃ response, stdin = Ok response ∧
     (TrimSpace (ToLower response) = "yes" ∨
      TrimSpace (ToLower response) = "y")) ∧
  authenticate = None ∧ newClient = None.
Proof.
  intros Hrun Hne.
  apply runRestore_shape in Hrun
    as [[? _] | (backup & e1 & e2 & e3 & e4 & table & Hload & Hcreds &
                 Hconfirm & Hauth & Hclient & _)]; [done|].
  split; [by exists backup|]. split; [done|]. split; [|done].
  destruct Hconfirm as [?|(response & Hstdin & Hc)]; [by left|].
  right. exists response. split; [done|].
  unfold confirmed in Hc. apply orb_true_iff in Hc.
  by rewrite !String.eqb_eq in Hc.
Qed.

Lemma restore_requests_need_confirmation_witness :
  ∃ r events w',
    sampleRestore = Some (r, events, w') ∧ events ≠ [] ∧
    TrimSpace (ToLower "Yes
") = "yes".
Proof.
  eexists _, _, _. split; [vm_compute; reflexivity|].
  split; [discriminate|].
  destruct (restore_requests_need_confirmation sampleCodec sampleService
              "backup.json" "credentials.json" restoreDisk true false
              (Ok "Yes
") None None 2 0 _ _ _ ltac:(vm_compute; reflexivity) ltac:(discriminate))
    as (_ & _ & [Hskip | (response & [= <-] & [Hyes | Hy])] & _);
    [discriminate | exact Hyes | discriminate].
Defined.

(** X14: the requests of a restore come in four consecutive phases:
    listing and deleting the contacts, listing and deleting the user
    categories, creating the categories, creating the contacts.  No
    creation request is sent before the deletions are over, and no deletion
    request after the first creation. *)
Theorem restore_runs_in_phases {World} (C : Codec)
    (svc : Service World) (inputFile credentialsFile : string)
    (fs : FileSystem (Bytes C)) (credentialsExist skipConfirm : bool)
    (stdin : Result string) (authenticate newClient : option error)
    (fuel : nat) (w : World) (r : option error) (events : list Event)
    (w' : World) :
  runRestore C svc inputFile credentialsFile fs credentialsExist skipConfirm
    stdin authenticate newClient fuel w = Some (r, events, w') ->
  ∃ e1 e2 e3 e4,
    events = e1 ++ e2 ++ e3 ++ e4 ∧
    Forall deleteContactsEvent e1 ∧ Forall deleteGroupsEvent e2 ∧
    Forall createGroupsEvent e3 ∧ Forall createContactsEvent e4.
Proof.
  intros Hrun.
  apply runRestore_shape in Hrun
    as [[-> _] | (backup & e1 & e2 & e3 & e4 & table & _ & _ & _ & _ & _ &
                  -> & H1 & H2 & H3 & H4 & _)].
  - exists [], [], [], []. repeat split; constructor.
  - by exists e1, e2, e3, e4.
Qed.

Lemma restore_runs_in_phases_witness :
  ∃ r events w',
    sampleRestore = Some (r, events, w') ∧
    ∃ e1 e2 e3 e4,
      events = e1 ++ e2 ++ e3 ++ e4 ∧
      Forall deleteContactsEvent e1 ∧ Forall deleteGroupsEvent e2 ∧
      Forall createGroupsEvent e3 ∧ Forall createContactsEvent e4.
Proof.
  eexists _, _, _. split; [vm_compute; reflexivity|].
  eapply (restore_runs_in_phases sampleCodec sampleService "backup.json"
            "credentials.json" restoreDisk true false (Ok "Yes
") None None 2 0).
  vm_compute. reflexivity.
Defined.

(** X15: every contact a restore sends for creation is the sanitised form
    of a contact of the archive, and each of its memberships refers either
    to [contactGroups/myContacts] or to a resource name that the service
    answered when a user-defined category of the archive was created: no
    identifier of the old account is sent back. *)
Theorem restore_sends_new_group_names {World} (C : Codec)
    (svc : Service World) (inputFile credentialsFile : string)
    (fs : FileSystem (Bytes C)) (credentialsExist skipConfirm : bool)
    (stdin : Result string) (authenticate newClient : option error)
    (fuel : nat) (w : World) (r : option error) (events : list Event)
    (w' : World) (backup : BackupFile) (batch : list Person)
    (contact : Person) :
  runRestore C svc inputFile credentialsFile fs credentialsExist skipConfirm
    stdin authenticate newClient fuel w = Some (r, events, w') ->
  LoadBackupFile C inputFile fs = Ok backup ->
  batch ∈ createBatches events -> contact ∈ batch ->
  (∃ original table,
     original ∈ Contacts backup ∧
     contact = cleanContactForCreation original table) ∧
  ∀ m, m ∈ Memberships contact ->
    groupOf m = Some "contactGroups/myContacts" ∨
    ∃ old new, groupOf m = Some new ∧ answeredFor svc (Groups backup) old new.
Proof.
  intros Hrun Hload Hbatch Hcontact.
  apply runRestore_shape in Hrun
    as [[-> _] | (backup' & e1 & e2 & e3 & e4 & table & Hload' & _ & _ & _ &
                  _ & -> & H1 & H2 & H3 & H4 & Hvalues & Hprefix)].
  { by apply elem_of_nil in Hbatch. }
  rewrite Hload in Hload'. injection Hload' as <-.
  unfold createBatches in Hbatch. rewrite !omap_app in Hbatch.
  fold (createBatches e1) (createBatches e2) (createBatches e3)
       (createBatches e4) in Hbatch.
  rewrite (no_create_batches e1), (no_create_batches e2),
    (no_create_batches e3) in Hbatch by auto.
  simpl in Hbatch.
  assert (Hin : contact ∈
            map (fun c => cleanContactForCreation c table) (Contacts backup)).
  { destruct Hprefix as [rest ->]. apply elem_of_app. left.
    apply list_elem_of_In, in_concat. exists batch.
    split; by apply list_elem_of_In. }
  apply list_elem_of_In, in_map_iff in Hin as (original & <- & Horiginal).
  apply list_elem_of_In in Horiginal.
  split; [by exists original, table|].
  intros m Hm.
  pose proof (cleanContact_memberships_accounted original table) as Hall.
  rewrite Forall_forall in Hall.
  destruct (Hall m Hm) as [[_ Hkept] | (m0 & old & new & _ & _ & Hnew & ->)].
  - by left.
  - right. exists old, new. split; [done|]. by apply Hvalues.
Qed.

Lemma restore_sends_new_group_names_witness :
  match LoadBackupFile sampleCodec "backup.json" restoreDisk with
  | Ok backup =>
      ∃ original table,
        original ∈ Contacts backup ∧
        personWithName "" = cleanContactForCreation original table
  | Err _ => False
  end.
Proof.
  destruct (LoadBackupFile sampleCodec "backup.json" restoreDisk)
    as [backup|err] eqn:Hload; [|vm_compute in Hload; discriminate].
  refine (proj1 (restore_sends_new_group_names sampleCodec sampleService
                   "backup.json" "credentials.json" restoreDisk true false
                   (Ok "Yes
") None None 2 0 _ _ _ backup
                   [personWithName ""; personWithName ""] (personWithName "")
                   _ Hload _ _)).
  - vm_compute. reflexivity.
  - apply list_elem_of_In. vm_compute. left. reflexivity.
  - apply list_elem_of_In. left. reflexivity.
Defined.

(** ** A backup, end to end *)

Lemma fold_AddGroup (groups : list ContactGroup) (b : BackupFile) :
  countsConsistent b ->
  fold_left AddGroup groups b =
  mkBackupFile (Version b) (CreatedAt b) (ContactCount b)
    (len (Groups b ++ groups)) (Contacts b) (Groups b ++ groups).
Proof.
  revert b. induction groups as [|g gs IH]; intros b [Hc Hg].
  - simpl. rewrite app_nil_r, <- Hg. by destruct b.
  - simpl. rewrite IH by (by apply add_group_consistent).
    simpl. by rewrite <- !app_assoc.
Qed.

Lemma fold_AddContact (contacts : list Person) (b : BackupFile) :
  countsConsistent b ->
  fold_left AddContact contacts b =
  mkBackupFile (Version b) (CreatedAt b) (len (Contacts b ++ contacts))
    (GroupCount b) (Contacts b ++ contacts) (Groups b).
Proof.
  revert b. induction contacts as [|c cs IH]; intros b [Hc Hg].
  - simpl. rewrite app_nil_r, <- Hc. by destruct b.
  - simpl. rewrite IH by (by apply add_contact_consistent).
    simpl. by rewrite <- !app_assoc.
Qed.

(** The archive [runBackup] assembles from what it has listed. *)
Lemma assembled_backup (now : Z) (groups : list ContactGroup)
    (contacts : list Person) :
  fold_left AddContact contacts
    (fold_left AddGroup groups (NewBackupFile now)) =
  mkBackupFile BackupVersion now (len contacts) (len groups) contacts groups.
Proof.
  rewrite fold_AddGroup by apply new_backup_consistent.
  rewrite fold_AddContact by (by split). done.
Qed.

Section BackupEvents.
Context {World : Type} (svc : Service World).

Lemma listGroupsLoop_requests (fuel : nat) :
  ∀ allGroups pageToken w r events w',
    listGroupsLoop svc fuel allGroups pageToken w = Some (r, events, w') ->
    Forall groupListingEvent events.
Proof.
  induction fuel as [|fuel IH];
    intros allGroups pageToken w r events w' Hrun; [done|].
  simpl in Hrun. unfold bind, request in Hrun.
  destruct (ContactGroupsList svc pageToken w) as [[resp|err] w1].
  - destruct (String.eqb (GroupsNextPageToken resp) "").
    + injection Hrun as <- <- <-. repeat constructor.
    + unfold emit in Hrun.
      match type of Hrun with
      | context [listGroupsLoop svc fuel ?a ?t w1] =>
          destruct (listGroupsLoop svc fuel a t w1)
            as [[[r2 events2] w2]|] eqn:Hrest; [|done]
      end.
      injection Hrun as <- <- <-. apply IH in Hrest.
      constructor; [done|]. by constructor.
  - injection Hrun as <- <- <-. repeat constructor.
Qed.

Lemma listContactsLoop_requests (fuel : nat) :
  ∀ progressFn allContacts pageToken totalCount w r events w',
    listContactsLoop svc fuel progressFn allContacts pageToken totalCount w =
      Some (r, events, w') ->
    Forall contactListingEvent events.
Proof.
  induction fuel as [|fuel IH];
    intros progressFn allContacts pageToken totalCount w r events w' Hrun;
    [done|].
  simpl in Hrun. unfold bind, request in Hrun.
  destruct (ConnectionsList svc pageToken w) as [[resp|err] w1].
  - rewrite report_run in Hrun.
    destruct (String.eqb (NextPageToken resp) "").
    + injection Hrun as <- <- <-. destruct progressFn; repeat constructor.
    + unfold emit in Hrun.
      match type of Hrun with
      | context [listContactsLoop svc fuel progressFn ?a ?t ?c w1] =>
          destruct (listContactsLoop svc fuel progressFn a t c w1)
            as [[[r2 events2] w2]|] eqn:Hrest; [|done]
      end.
      injection Hrun as <- <- <-. apply IH in Hrest.
      constructor; [done|]. apply Forall_app. split.
      * destruct progressFn; repeat constructor.
      * by constructor.
  - injection Hrun as <- <- <-. repeat constructor.
Qed.
End BackupEvents.

Lemma groupListing_is_listing (e : Event) :
  groupListingEvent e -> listingEvent e.
Proof. by destruct e. Qed.

Lemma contactListing_is_listing (e : Event) :
  contactListingEvent e -> listingEvent e.
Proof. by destruct e. Qed.

(** X16: a backup only reads the directory.  In every run of [runBackup]
    the requests are listing requests; none is sent unless the credentials
    file exists and authentication and the construction of the client
    succeeded; the requests for the categories all come before those for
    the contacts; and the contacts are asked for only when the listing of
    the categories has succeeded. *)
Theorem backup_only_reads_the_directory {World} (C : Codec)
    (svc : Service World) (outputFile credentialsFile : string)
    (fs fs' : FileSystem (Bytes C)) (credentialsExist : bool)
    (authenticate newClient : option error) (now : Z) (fuel : nat)
    (w w' : World) (r : option error) (events : list Event) :
  runBackup C svc outputFile credentialsFile fs credentialsExist authenticate
    newClient now fuel w = Some ((r, fs'), events, w') ->
  Forall listingEvent events ∧
  (events ≠ [] ->
   credentialsExist = true ∧ authenticate = None ∧ newClient = None) ∧
  ∃ groupEvents contactEvents,
    events = groupEvents ++ contactEvents ∧
    Forall groupListingEvent groupEvents ∧
    Forall contactListingEvent contactEvents ∧
    (contactEvents ≠ [] ->
     ∃ groups w1,
       ListGroups svc fuel w = Some (Ok groups, groupEvents, w1)).
Proof.
  unfold runBackup. destruct credentialsExist; simpl;
    [|intros [= <- <- <- <-]; split; [done|]; split; [done|];
      by exists [], []].
  destruct authenticate;
    [intros [= <- <- <- <-]; split; [done|]; split; [done|];
     by exists [], []|].
  destruct newClient;
    [intros [= <- <- <- <-]; split; [done|]; split; [done|];
     by exists [], []|].
  unfold bind. unfold ListGroups at 1. unfold ListContacts.
  destruct (listGroupsLoop svc fuel [] "" w)
    as [[[[groups|err] events1] w1]|] eqn:Hgroups; [| |done].
  - pose proof (listGroupsLoop_requests _ _ _ _ _ _ _ _ Hgroups) as Hall1.
    destruct (listContactsLoop svc fuel true [] "" 0 w1)
      as [[[[contacts|err] events2] w2]|] eqn:Hcontacts; [| |done];
      pose proof (listContactsLoop_requests _ _ _ _ _ _ _ _ _ _ Hcontacts)
        as Hall2.
    + destruct (SaveToFile C _ outputFile fs) as [[err|] fs1];
        intros [= <- <- <- <-]; rewrite !app_nil_r.
      all: split;
        [apply Forall_app; split;
         [eapply Forall_impl; [exact Hall1 | apply groupListing_is_listing]
         |eapply Forall_impl; [exact Hall2 | apply contactListing_is_listing]]
        |].
      all: split; [done|]. all: exists events1, events2.
      all: split; [done|]; split; [done|]; split; [done|].
      all: intros _; exists groups, w1; unfold ListGroups; by rewrite Hgroups.
    + intros [= <- <- <- <-]. rewrite !app_nil_r.
      split;
        [apply Forall_app; split;
         [eapply Forall_impl; [exact Hall1 | apply groupListing_is_listing]
         |eapply Forall_impl; [exact Hall2 | apply contactListing_is_listing]]
        |].
      split; [done|]. exists events1, events2.
      split; [done|]; split; [done|]; split; [done|].
      intros _; exists groups, w1; unfold ListGroups; by rewrite Hgroups.
  - pose proof (listGroupsLoop_requests _ _ _ _ _ _ _ _ Hgroups) as Hall1.
    intros [= <- <- <- <-]. rewrite app_nil_r.
    split;
      [eapply Forall_impl; [exact Hall1 | apply groupListing_is_listing]|].
    split; [done|]. exists events1, []. rewrite app_nil_r. done.
Qed.

(** X17: when the credentials exist, authentication succeeds, both
    listings reach their last page and the output file can be written, a
    backup returns no error, and loading the file it wrote gives an archive
    with version "1.0", the time of the run, exactly the listed categories
    and contacts in listing order, and counts equal to their numbers
    (provided the JSON libraries write and read that archive faithfully). *)
Theorem backup_then_load {World} (C : Codec) (svc : Service World)
    (outputFile credentialsFile : string) (fs : FileSystem (Bytes C))
    (now : Z) (fuel : nat) (w w1 w2 : World)
    (groupPgs : list (list ContactGroup)) (contactPgs : list (list Person)) :
  let archive :=
    mkBackupFile "1.0" now (len (concat contactPgs)) (len (concat groupPgs))
      (concat contactPgs) (concat groupPgs) in
  groupPages svc "" w groupPgs w1 -> length groupPgs <= fuel ->
  connectionPages svc "" w1 contactPgs w2 -> length contactPgs <= fuel ->
  outputFile ∉ denied fs ->
  representable C archive ->
  ∃ events fs',
    runBackup C svc outputFile credentialsFile fs true None None now fuel w =
      Some ((None, fs'), events, w2) ∧
    LoadBackupFile C outputFile fs' = Ok archive ∧
    countsConsistent archive.
Proof.
  intros archive Hgroups Hfuel1 Hcontacts Hfuel2 Hpath Hrep.
  destruct (listGroupsLoop_pages svc "" w groupPgs w1 Hgroups fuel []
              Hfuel1) as (events1 & Hrun1 & _).
  destruct (listContactsLoop_pages svc "" w1 contactPgs w2 Hcontacts fuel
              true [] 0%Z Hfuel2) as (events2 & Hrun2 & _).
  cbn [app] in Hrun1, Hrun2.
  unfold runBackup. cbn [negb]. unfold bind, ListGroups, ListContacts.
  rewrite Hrun1, Hrun2, assembled_backup.
  change (mkBackupFile BackupVersion now (len (concat contactPgs))
            (len (concat groupPgs)) (concat contactPgs) (concat groupPgs))
    with archive.
  destruct (save_succeeds C archive outputFile fs Hpath) as [fs' Hsave].
  rewrite Hsave. eexists _, fs'. split; [reflexivity|]. split.
  - eapply save_then_load; [|exact Hsave]. split; [done | exact Hrep].
  - by split.
Qed.

(** A backup of the directory [plainService] on an empty disk. *)
Lemma backup_then_load_witness :
  ∃ events fs',
    runBackup sampleCodec plainService "backup.json" "credentials.json"
      emptyDisk true None None 1767225600 2 0 =
      Some ((None, fs'), events, 4) ∧
    LoadBackupFile sampleCodec "backup.json" fs' =
      Ok (mkBackupFile "1.0" 1767225600 2 3
            [personWithName "people/c1"; personWithName "people/c2"]
            [myContactsGroup; friendsGroup; workGroup]) ∧
    countsConsistent
      (mkBackupFile "1.0" 1767225600 2 3
         [personWithName "people/c1"; personWithName "people/c2"]
         [myContactsGroup; friendsGroup; workGroup]).
Proof.
  refine (backup_then_load sampleCodec plainService
            "backup.json" "credentials.json" emptyDisk 1767225600 2 0 2 4
            [[myContactsGroup; friendsGroup]; [workGroup]]
            [[personWithName "people/c1"]; [personWithName "people/c2"]]
            _ _ _ _ _ _).
  - eapply groups_next; [reflexivity | discriminate |].
    eapply groups_last. reflexivity.
  - simpl. lia.
  - eapply connections_next; [reflexivity | discriminate |].
    eapply connections_last. reflexivity.
  - simpl. lia.
  - simpl. set_solver.
  - repeat split; try done; repeat constructor.
Defined.

Lemma backup_only_reads_the_directory_witness :
  ∃ r fs' events w',
    runBackup sampleCodec plainService "backup.json" "credentials.json"
      emptyDisk true None None 1767225600 2 0 = Some ((r, fs'), events, w') ∧
    Forall listingEvent events.
Proof.
  eexists _, _, _, _. split; [vm_compute; reflexivity|].
  refine (proj1 (backup_only_reads_the_directory sampleCodec plainService
                   "backup.json" "credentials.json" emptyDisk _ true None None
                   1767225600 2 0 _ _ _ _)).
  vm_compute. reflexivity.
Defined.

Lemma create_groups_accepting_service_witness :
  ∃ table events w',
    CreateGroups sampleService [myContactsGroup; friendsGroup; workGroup]
      true 0 = Some (Ok table, events, w') ∧
    length (createdGroups events) = 2.
Proof.
  destruct (create_groups_accepting_service sampleService
              [myContactsGroup; friendsGroup; workGroup] true 0)
    as (table & events & w' & Hrun & Hcount & _).
  - intros name w0. by eexists _, _.
  - exists table, events, w'. split; [exact Hrun | exact Hcount].
Defined.

(** ** Authentication *)

(** X18: [GetClient] fails only when the credentials cannot be loaded or
    when the interactive flow it had to run fails, with the matching
    wrapped error; a failure to save a token is only a warning beside a
    successful result.  A valid cached token is returned without any
    exchange, flow or save; the interactive flow runs exactly when the
    credentials are loaded, no cached token is valid, and no refresh of a
    cached token with a refresh token succeeds. *)
Theorem get_client_outcomes (env : AuthEnv) :
  (∀ err, (GetClient env).1 = Err err ↔
     (∃ cause, loadCredentials env = Err cause ∧
               err = Wrap "failed to load credentials" cause) ∨
     (∃ cause, InteractiveFlow ∈ (GetClient env).2 ∧
               doOAuthFlow env = Err cause ∧
               err = Wrap "OAuth flow failed" cause)) ∧
  (∀ err, SaveWarning err ∈ (GetClient env).2 ->
     ∃ config token, (GetClient env).1 = Ok (config, token) ∧
                     saveToken env token = Some err) ∧
  (∀ config token, loadCredentials env = Ok config ->
     loadToken env = Ok token -> Valid env token = true ->
     GetClient env = (Ok (config, token), [])) ∧
  (InteractiveFlow ∈ (GetClient env).2 ↔
     (∃ config, loadCredentials env = Ok config) ∧
     ¬ (∃ token, loadToken env = Ok token ∧ Valid env token = true) ∧
     ¬ (∃ token newToken, loadToken env = Ok token ∧
          RefreshToken token ≠ "" ∧ refreshToken env token = Ok newToken)).
Proof.
  unfold GetClient, saveOrWarn.
  repeat case_match; simpl;
    repeat match goal with
           | H : negb _ = true |- _ => apply negb_true_iff in H
           | H : negb _ = false |- _ => apply negb_false_iff in H
           | H : String.eqb _ _ = true |- _ => apply String.eqb_eq in H
           | H : String.eqb _ _ = false |- _ => apply String.eqb_neq in H
           end;
    split_and!; set_unfold; try naive_solver.
  all: try (intros c t [= <-] [= <-] ?; congruence).
  all: split;
    [ intros _; split_and!;
      [ by eexists
      | intros (t & [= <-] & ?); congruence
      | intros (t & t' & [= <-] & ? & ?); congruence ]
    | intros _; auto ].
Qed.
